(** * Verification of the monitoring agent's core (alert store, evidence
    buffers, object-presence tracker, contact heuristic).

    Shallow embedding of
    - src/backend/agent/utils/alert_manager.py       (module [AlertStore])
    - src/backend/agent/utils/video_processing.py    (module [Evidence])
    - src/backend/agent/utils/audio_processing.py    (module [Evidence])
    - src/backend/agent/models/yolov8/model.py       (module [Tracker])
    - src/backend/agent/models/yolov7_pose/model.py  (module [Contact])
    - [AlertManager.load_alerts]                     (module [StoreLoad])
    - src/admin/main.py, [AlertState]                (module [Admin])
    - [_process_audio], [_check_for_curse_words]     (module [AudioStream])
    - src/backend/agent/agent.py, detection threads  (module [Worker]) *)

From Stdlib Require Import String List Bool ZArith QArith Qminmax Sorting Permutation Lia.
Import ListNotations.
Open Scope nat_scope.


(** Python exceptions that can escape the modelled functions. *)
Inductive exn := ValueError | OSError.

(** Outcome of a Python call: a returned value or a raised exception. *)
Inductive res (A : Type) : Type :=
| Ok : A -> res A
| Raise : exn -> res A.
Arguments Ok {A} _.
Arguments Raise {A} _.

Module AlertStore.

(** [Alert.to_dict()]: the record stored in [AlertManager.alerts]. *)
Record Alert := mkAlert {
  id : string;
  timestamp : string;            (** [datetime.now().isoformat()] *)
  alert_type : string;
  description : string;
  video_path : option string;    (** [None] or a path *)
  audio_path : option string;
  is_false_positive : bool;
  feedback : string
}.

(** [Alert.__init__]: [uid] stands for [str(uuid.uuid4())[:8]] and [now]
    for [datetime.now().isoformat()], both drawn by the environment. *)
Definition new_alert (uid now atype desc : string)
    (video audio : option string) : Alert :=
  {| id := uid; timestamp := now; alert_type := atype; description := desc;
     video_path := video; audio_path := audio;
     is_false_positive := false; feedback := "" |}.

(** The argument of [add_alert]: an [Alert] instance or anything else. *)
Inductive add_arg := AlertObj (a : Alert) | NotAnAlert.

(** Contents of alerts.json: a complete JSON dump of a list of alerts,
    or a file truncated by [open(..., 'w')] whose [json.dump] failed. *)
Inductive disk := Dumped (l : list Alert) | Damaged.

(** Outcome of one [save_alerts] call, chosen by the environment:
    success, [open] failing (file untouched), or the write failing after
    [open(..., 'w')] truncated the file. *)
Inductive io_outcome := IO_ok | IO_open_fail | IO_write_fail.

(** The state of an [AlertManager] together with the files it touches. *)
Record Store := mkStore {
  alerts : list Alert;      (** [self.alerts] *)
  db : disk;                (** alerts.json *)
  files : list string       (** evidence files present on disk *)
}.

(** A state and exception monad over [Store]. *)
Definition ST (A : Type) := Store -> res A * Store.

Definition ret {A} (a : A) : ST A := fun s => (Ok a, s).
Definition raise {A} (e : exn) : ST A := fun s => (Raise e, s).
Definition bind {A B} (m : ST A) (k : A -> ST B) : ST B :=
  fun s => match m s with
           | (Ok a, s') => k a s'
           | (Raise e, s') => (Raise e, s')
           end.
Definition modify (f : Store -> Store) : ST unit := fun s => (Ok tt, f s).
Definition gets {A} (f : Store -> A) : ST A := fun s => (Ok (f s), s).

Notation "x <- m ;; k" := (bind m (fun x => k))
  (at level 61, m at next level, right associativity).

Definition set_alerts (l : list Alert) (s : Store) : Store :=
  {| alerts := l; db := db s; files := files s |}.

(** [save_alerts]: [json.dump(self.alerts, open(ALERTS_DB_PATH, 'w'))]. *)
Definition save_alerts (io : io_outcome) : ST unit :=
  fun s => match io with
           | IO_ok => (Ok tt, {| alerts := alerts s; db := Dumped (alerts s);
                                 files := files s |})
           | IO_open_fail => (Raise OSError, s)
           | IO_write_fail => (Raise OSError, {| alerts := alerts s; db := Damaged;
                                                  files := files s |})
           end.

(** [add_alert]: append [alert.to_dict()], save, return the id. *)
Definition add_alert (io : io_outcome) (arg : add_arg) : ST string :=
  match arg with
  | AlertObj a =>
      _ <- modify (fun s => set_alerts (alerts s ++ [a]) s) ;;
      _ <- save_alerts io ;;
      ret (id a)
  | NotAnAlert => raise ValueError
  end.

(** [get_alert_by_id]: the first alert whose id equals [aid]. *)
Fixpoint find_alert (aid : string) (l : list Alert) : option Alert :=
  match l with
  | [] => None
  | a :: l' => if String.eqb (id a) aid then Some a else find_alert aid l'
  end.

Definition get_alert_by_id (aid : string) : ST (option Alert) :=
  gets (fun s => find_alert aid (alerts s)).

(** [sorted(self.alerts, key=lambda x: x["timestamp"], reverse=True)]:
    a stable sort on descending timestamps (string order).  [insert_desc]
    places [a] after every element whose timestamp is [>=] its own, so
    inserting the elements in list order keeps equal keys in their
    original order, as Python's stable [reverse=True] sort does. *)
Fixpoint insert_desc (a : Alert) (l : list Alert) : list Alert :=
  match l with
  | [] => [a]
  | b :: l' => if String.leb (timestamp a) (timestamp b)
               then b :: insert_desc a l'
               else a :: l
  end.

Definition sort_desc (l : list Alert) : list Alert :=
  fold_left (fun acc a => insert_desc a acc) l [].

Definition get_all_alerts : ST (list Alert) :=
  gets (fun s => sort_desc (alerts s)).

(** The dict returned by [get_alert_by_id] is the one inside
    [self.alerts]; assigning its fields mutates the first alert with that
    id in place. *)
Fixpoint update_first (aid : string) (f : Alert -> Alert) (l : list Alert)
    : list Alert :=
  match l with
  | [] => []
  | a :: l' => if String.eqb (id a) aid then f a :: l'
               else a :: update_first aid f l'
  end.

Definition set_false_positive (fb : string) (a : Alert) : Alert :=
  {| id := id a; timestamp := timestamp a; alert_type := alert_type a;
     description := description a; video_path := video_path a;
     audio_path := audio_path a; is_false_positive := true; feedback := fb |}.

(** [mark_as_false_positive]. *)
Definition mark_as_false_positive (io : io_outcome) (aid fb : string)
    : ST bool :=
  found <- get_alert_by_id aid ;;
  match found with
  | Some _ =>
      _ <- modify (fun s => set_alerts (update_first aid (set_false_positive fb)
                                          (alerts s)) s) ;;
      _ <- save_alerts io ;;
      ret true
  | None => ret false
  end.

(** [delete_alert]: the evidence-file cleanup.  A path is attempted when
    it is truthy (not [None], not empty) and exists; [rm_ok p] says whether
    [os.remove(p)] succeeds.  A failing removal is caught and printed. *)
Definition truthy (p : option string) : option string :=
  match p with
  | Some q => if String.eqb q "" then None else Some q
  | None => None
  end.

Definition remove_file (rm_ok : string -> bool) (p : option string)
    (fs : list string) : list string :=
  match truthy p with
  | Some q =>
      if existsb (String.eqb q) fs
      then (if rm_ok q then filter (fun r => negb (String.eqb r q)) fs else fs)
      else fs
  | None => fs
  end.

(** [self.alerts.pop(i)] for the first index [i] whose id matches. *)
Fixpoint remove_first (aid : string) (l : list Alert) : list Alert :=
  match l with
  | [] => []
  | a :: l' => if String.eqb (id a) aid then l' else a :: remove_first aid l'
  end.

Definition delete_alert (io : io_outcome) (rm_ok : string -> bool)
    (aid : string) : ST bool :=
  found <- get_alert_by_id aid ;;
  match found with
  | Some a =>
      _ <- modify (fun s =>
             {| alerts := alerts s; db := db s;
                files := remove_file rm_ok (audio_path a)
                           (remove_file rm_ok (video_path a) (files s)) |}) ;;
      _ <- modify (fun s => set_alerts (remove_first aid (alerts s)) s) ;;
      _ <- save_alerts io ;;
      ret true
  | None => ret false
  end.

(** Descending order on timestamps, the order [get_all_alerts] promises. *)
Definition ts_desc (a b : Alert) : Prop :=
  String.leb (timestamp b) (timestamp a) = true.

(** Sample data for the concrete checks below. *)
Definition demo_alert (uid : string) : Alert :=
  new_alert uid "2026-10-18T10:00:00" "object_theft"
    "Potential theft detected: laptop missing" None None.

Definition empty_store : Store := mkStore [] (Dumped []) [].

End AlertStore.

Module Evidence.

(** ** Video: [VideoProcessor.frame_buffer] *)

Section Video.
Variable Frame : Type.

(** The part of a [VideoProcessor] the evidence path touches. *)
Record VideoState := mkVideo {
  frame_buffer : list Frame;
  video_written : list string      (** clips written by [save_alert_video] *)
}.

(** [read_frame]: [grabbed] is [self.cap.read()] ([None] when [ret] is
    false) and [resize] the [cv2.resize] step (the identity when the frame
    already has the output size).  The frame is appended and, when the
    buffer is longer than [max_buffer_size], the oldest one is popped. *)
Definition read_frame (max_buffer_size : nat) (resize : Frame -> Frame)
    (grabbed : option Frame) (v : VideoState) : option Frame * VideoState :=
  match grabbed with
  | None => (None, v)
  | Some f0 =>
      let f := resize f0 in
      let buf := frame_buffer v ++ [f] in
      let buf' := if Nat.ltb max_buffer_size (length buf) then tl buf else buf in
      (Some f, mkVideo buf' (video_written v))
  end.

(** [save_alert_video]: [None] on an empty buffer, otherwise every
    buffered frame is written to [VIDEO_DIR/alert_<id>_<timestamp>.mp4]
    and the path is returned. *)
Definition save_alert_video (video_dir alert_id timestamp : string)
    (v : VideoState) : option string * VideoState :=
  match frame_buffer v with
  | [] => (None, v)
  | _ :: _ =>
      let path := (video_dir ++ "/alert_" ++ alert_id ++ "_" ++ timestamp
                   ++ ".mp4")%string in
      (Some path, mkVideo (frame_buffer v) (path :: video_written v))
  end.

(** A run of successful reads of already-sized frames, from [v]. *)
Definition read_all (max_buffer_size : nat) (fs : list Frame) (v : VideoState)
    : VideoState :=
  fold_left (fun v f => snd (read_frame max_buffer_size (fun x => x) (Some f) v))
    fs v.

End Video.

(** ** Audio: [AudioProcessor.audio_buffer] *)

Section Audio.
Variable Sample : Type.

Record AudioState := mkAudio {
  audio_buffer : list Sample;
  audio_written : list string      (** files written by [save_alert_audio] *)
}.

(** Python's [l[-n:]] for [n >= 0]: [-0] is [0], so [l[-0:]] is the whole
    list; otherwise the last [n] elements. *)
Definition slice_neg (n : nat) (l : list Sample) : list Sample :=
  match n with
  | O => l
  | S _ => skipn (length l - n) l
  end.

(** [audio_callback]: [data.flatten()] is [chunk]; it extends the buffer,
    which is cut to its last [max_buffer_size] samples when longer. *)
Definition audio_callback (max_buffer_size : nat) (chunk : list Sample)
    (a : AudioState) : AudioState :=
  let buf := audio_buffer a ++ chunk in
  let buf' := if Nat.ltb max_buffer_size (length buf)
              then slice_neg max_buffer_size buf else buf in
  mkAudio buf' (audio_written a).

(** [save_alert_audio]: [None] on an empty buffer; otherwise the buffer
    is normalised into a new array and written with [sf.write], which can
    raise ([write_ok = false]); the buffer itself is only read. *)
Definition save_alert_audio (write_ok : bool) (audio_dir alert_id timestamp : string)
    (a : AudioState) : res (option string) * AudioState :=
  match audio_buffer a with
  | [] => (Ok None, a)
  | _ :: _ =>
      let path := (audio_dir ++ "/alert_" ++ alert_id ++ "_" ++ timestamp
                   ++ ".wav")%string in
      if Nat.ltb 0 (length (audio_buffer a)) then
        if write_ok then (Ok (Some path), mkAudio (audio_buffer a) (path :: audio_written a))
        else (Raise OSError, a)
      else (Ok None, a)
  end.

(** A run of callbacks delivering [chunks], from [a]. *)
Definition callback_all (max_buffer_size : nat) (chunks : list (list Sample))
    (a : AudioState) : AudioState :=
  fold_left (fun a c => audio_callback max_buffer_size c a) chunks a.

End Audio.

Arguments mkVideo {Frame} _ _.
Arguments frame_buffer {Frame} _.
Arguments video_written {Frame} _.
Arguments read_frame {Frame} _ _ _ _.
Arguments save_alert_video {Frame} _ _ _ _.
Arguments read_all {Frame} _ _ _.
Arguments mkAudio {Sample} _ _.
Arguments audio_buffer {Sample} _.
Arguments audio_written {Sample} _.
Arguments slice_neg {Sample} _ _.
Arguments audio_callback {Sample} _ _ _.
Arguments save_alert_audio {Sample} _ _ _ _ _.
Arguments callback_all {Sample} _ _ _.

(** The last [n] elements of a list (all of it when shorter). *)
Definition lastn {A} (n : nat) (l : list A) : list A := skipn (length l - n) l.

End Evidence.

Module Tracker.
Local Open Scope Q_scope.

(** One row of [results.boxes.data] with [results.names[cls_id]] already
    looked up; coordinates and the clock are rationals. *)
Record Detection := mkDet {
  class_name : string;
  x1 : Q; y1 : Q; x2 : Q; y2 : Q
}.

(** The value stored in [current_objects] / [tracked_objects]. *)
Record TrackedObj := mkObj {
  obj_class : string;
  position : Q * Q;
  size : Q;
  last_seen : Q;
  box : Q * Q * Q * Q
}.

(** [f"{class_name}_{int(cx/20)}_{int(cy/20)}_{int(size/500)}"], kept as
    the tuple of its fields (distinct tuples give distinct strings). *)
Definition ObjId : Type := string * Z * Z * Z.

Definition objid_eqb (a b : ObjId) : bool :=
  match a, b with
  | (c, i, j, k), (c', i', j', k') =>
      String.eqb c c' && Z.eqb i i' && Z.eqb j j' && Z.eqb k k'
  end.

(** Python's [int(x)] on a number: truncation toward zero. *)
Definition py_int (q : Q) : Z := Z.quot (Qnum q) (Zpos (Qden q)).

Definition watched_classes : list string :=
  ["chair"; "laptop"; "cell phone"; "keyboard"; "mouse"; "cup"; "bottle"]%string.

Definition is_watched (c : string) : bool := existsb (String.eqb c) watched_classes.

(** A Python dict as an association list in insertion order. *)
Definition Dict : Type := list (ObjId * TrackedObj).

Fixpoint dict_get (k : ObjId) (d : Dict) : option TrackedObj :=
  match d with
  | [] => None
  | (k', v) :: d' => if objid_eqb k k' then Some v else dict_get k d'
  end.

(** [d[k] = v]: overwrite in place, or append a new key. *)
Fixpoint dict_set (k : ObjId) (v : TrackedObj) (d : Dict) : Dict :=
  match d with
  | [] => [(k, v)]
  | (k', v') :: d' => if objid_eqb k k' then (k', v) :: d' else (k', v') :: dict_set k v d'
  end.

Definition dict_mem (k : ObjId) (d : Dict) : bool :=
  match dict_get k d with Some _ => true | None => false end.

(** The derived id and the record of one watched detection seen at [now]. *)
Definition obj_id_of (d : Detection) : ObjId :=
  let cx := (x1 d + x2 d) / 2 in
  let cy := (y1 d + y2 d) / 2 in
  let sz := (x2 d - x1 d) * (y2 d - y1 d) in
  (class_name d, py_int (cx / 20), py_int (cy / 20), py_int (sz / 500)).

Definition obj_of (now : Q) (d : Detection) : TrackedObj :=
  {| obj_class := class_name d;
     position := ((x1 d + x2 d) / 2, (y1 d + y2 d) / 2);
     size := (x2 d - x1 d) * (y2 d - y1 d);
     last_seen := now;
     box := (x1 d, y1 d, x2 d, y2 d) |}.

(** The loop building [current_objects]; every [time.time()] of one tick
    reads the tick's clock value [now]. *)
Definition current_objects (now : Q) (dets : list Detection) : Dict :=
  fold_left (fun cur d => if is_watched (class_name d)
                          then dict_set (obj_id_of d) (obj_of now d) cur
                          else cur) dets [].

(** The detector's state across ticks. *)
Record TrackerState := mkTracker {
  tracked_objects : Dict;
  missing_objects : list TrackedObj
}.

(** The theft check: every previously tracked object absent from
    [current], missing for more than 3 seconds. *)
Definition find_missing (now : Q) (tracked current : Dict) : list TrackedObj :=
  fold_left (fun miss kv =>
               let '(k, v) := kv in
               if dict_mem k current then miss
               else if Qle_bool (now - last_seen v) 3 then miss
               else miss ++ [v]) tracked [].

(** [set(missing_names)], in first-occurrence order (Python's set order
    only affects the order of names in the message). *)
Fixpoint dedup (l : list string) : list string :=
  match l with
  | [] => []
  | c :: l' => c :: filter (fun c' => negb (String.eqb c c')) (dedup l')
  end.

Definition theft_message (missing : list TrackedObj) : string :=
  ("Potential theft detected: " ++
   String.concat ", " (dedup (map obj_class missing)) ++ " missing")%string.

(** [update_object_tracking] on the detections [dets] of a tick at time
    [now]. *)
Definition update_object_tracking (now : Q) (dets : list Detection)
    (st : TrackerState) : (bool * string) * TrackerState :=
  let current := current_objects now dets in
  match tracked_objects st with
  | [] => ((false, ""%string), mkTracker current [])
  | tracked =>
      let missing := find_missing now tracked current in
      match missing with
      | [] => ((false, ""%string), mkTracker current missing)
      | _ :: _ => ((true, theft_message missing), mkTracker current missing)
      end
  end.

(** A sequence of ticks, each a clock value and its detections. *)
Fixpoint run_ticks (ticks : list (Q * list Detection)) (st : TrackerState)
    : list (bool * string) * TrackerState :=
  match ticks with
  | [] => ([], st)
  | (now, dets) :: ticks' =>
      let '(out, st1) := update_object_tracking now dets st in
      let '(outs, st2) := run_ticks ticks' st1 in
      (out :: outs, st2)
  end.

Definition initial_tracker : TrackerState := mkTracker [] [].

(** Sample scene: a laptop and a cup, then the laptop taken away. *)
Definition laptop : Detection := mkDet "laptop" 100 100 140 130.
Definition cup : Detection := mkDet "cup" 300 300 320 330.

(** Ticks one second apart: both objects at times 0..3, only the cup
    from time 4 to time 8. *)
Definition theft_scene : list (Q * list Detection) :=
  [(0, [laptop; cup]); (1, [laptop; cup]); (2, [laptop; cup]); (3, [laptop; cup]);
   (4, [cup]); (5, [cup]); (6, [cup]); (7, [cup]); (8, [cup])].

End Tracker.

Module Contact.
Local Open Scope Q_scope.

(** A keypoint [(x, y, conf)] and a person's keypoint array (17 rows for
    YOLOv7-pose; [kp p i] is [person[i]]). *)
Definition Keypoint : Type := Q * Q * Q.
Definition Person : Type := list Keypoint.

Definition kp (p : Person) (i : nat) : Keypoint := nth i p (0, 0, 0).
Definition kx (k : Keypoint) : Q := fst (fst k).
Definition ky (k : Keypoint) : Q := snd (fst k).
Definition kconf (k : Keypoint) : Q := snd k.

(** [x < y] on numbers. *)
Definition qlt (x y : Q) : bool := negb (Qle_bool y x).

(** Squared Euclidean distance.  The source compares
    [math.sqrt(dx**2 + dy**2)] with a threshold [t >= 0]; over the reals
    [sqrt d < t] iff [d < t * t], and the minimum of square roots is the
    square root of the minimum, so distances are kept squared and the
    thresholds 30 and 20 become 900 and 400. *)
Definition dist2 (a b : Keypoint) : Q :=
  (kx a - kx b) * (kx a - kx b) + (ky a - ky b) * (ky a - ky b).

Definition key_points : list nat := [5; 6; 11; 12]%nat.
Definition hand_indices : list nat := [9; 10]%nat.
Definition body_indices : list nat := [5; 6; 11; 12]%nat.

(** [min(min_distance, dist)] with [None] for [float('inf')]. *)
Definition qmin_opt (m : option Q) (d : Q) : option Q :=
  match m with None => Some d | Some m' => Some (Qmin m' d) end.

(** [_calculate_minimum_distance], on squared distances. *)
Definition calculate_minimum_distance (p1 p2 : Person) : option Q :=
  fold_left (fun m i =>
    let a := kp p1 i in
    if qlt (kconf a) (1 # 2) then m
    else fold_left (fun m j =>
           let b := kp p2 j in
           if qlt (kconf b) (1 # 2) then m
           else qmin_opt m (dist2 a b)) key_points m) key_points None.

(** [distance < 30]; [inf < 30] is false. *)
Definition below (m : option Q) (t : Q) : bool :=
  match m with None => false | Some d => qlt d t end.

(** [_are_facing_each_other].  The normalised vectors exist when both
    norms are positive (squared norms here), and dividing by the two
    positive norms does not change the sign of the dot product. *)
Definition midpoint (a b : Keypoint) : Q * Q := ((kx a + kx b) / 2, (ky a + ky b) / 2).

Definition trunk (p : Person) : Q * Q :=
  let sh := midpoint (kp p 5) (kp p 6) in
  let hp := midpoint (kp p 11) (kp p 12) in
  (fst sh - fst hp, snd sh - snd hp).

Definition norm2 (v : Q * Q) : Q := fst v * fst v + snd v * snd v.
Definition dot (v w : Q * Q) : Q := fst v * fst w + snd v * snd w.

Definition are_facing_each_other (p1 p2 : Person) : bool :=
  let d1 := trunk p1 in
  let d2 := trunk p2 in
  if qlt 0 (norm2 d1) && qlt 0 (norm2 d2) then qlt (dot d1 d2) 0 else false.

(** One direction of [_detect_hand_contact]: some confident wrist of
    [p1] within 20 pixels of a confident shoulder or hip of [p2]; the
    loop returns [True] at the first such pair. *)
Definition hands_touch (p1 p2 : Person) : bool :=
  existsb (fun h =>
    let hand := kp p1 h in
    if qlt (kconf hand) (1 # 2) then false
    else existsb (fun bi =>
           let body := kp p2 bi in
           if qlt (kconf body) (1 # 2) then false
           else qlt (dist2 hand body) 400) body_indices) hand_indices.

Definition detect_hand_contact (p1 p2 : Person) : bool :=
  hands_touch p1 p2 || hands_touch p2 p1.

(** The body of the pair loop of [check_inappropriate_contact]. *)
Definition pair_alarm (p1 p2 : Person) : bool :=
  if below (calculate_minimum_distance p1 p2) 900 then
    if are_facing_each_other p1 p2 then detect_hand_contact p1 p2 else false
  else false.

(** [for i ...: for j in range(i+1, ...)]: the first alarming pair
    returns at once. *)
Fixpoint any_pair (ps : list Person) : bool :=
  match ps with
  | [] => false
  | p :: rest => existsb (fun q => pair_alarm p q) rest || any_pair rest
  end.

Definition contact_message : string :=
  "Detected inappropriate physical contact between people".

Definition check_inappropriate_contact (ps : list Person) : bool * string :=
  if Nat.ltb (length ps) 2 then (false, ""%string)
  else if any_pair ps then (true, contact_message) else (false, ""%string).

(** The three conditions in the words of the specification (section
    4.3), for the pair [(p1, p2)]. *)
Definition close_bodies (p1 p2 : Person) : Prop :=
  exists i j, In i key_points /\ In j key_points /\
    1 # 2 <= kconf (kp p1 i) /\ 1 # 2 <= kconf (kp p2 j) /\
    dist2 (kp p1 i) (kp p2 j) < 30 * 30.

(** "normalised trunk vectors with negative dot product": both trunk
    vectors are non-zero, and the sign of the dot product of the
    normalised vectors is the sign of [dot]. *)
Definition facing (p1 p2 : Person) : Prop :=
  0 < norm2 (trunk p1) /\ 0 < norm2 (trunk p2) /\ dot (trunk p1) (trunk p2) < 0.

Definition wrist_on (p1 p2 : Person) : Prop :=
  exists h b, In h hand_indices /\ In b body_indices /\
    1 # 2 <= kconf (kp p1 h) /\ 1 # 2 <= kconf (kp p2 b) /\
    dist2 (kp p1 h) (kp p2 b) < 20 * 20.

Definition contact_condition (p1 p2 : Person) : Prop :=
  close_bodies p1 p2 /\ facing p1 p2 /\ (wrist_on p1 p2 \/ wrist_on p2 p1).

(** The synthetic scene of section 8: shoulders (5, 6) and hips (11, 12)
    confident, person A upright, person B upside down, shoulder midpoints
    10 pixels apart; [wrist] is person A's left wrist (index 9). *)
Definition mk_person (sh1 sh2 hp1 hp2 wrist : Q * Q) : Person :=
  let c (pt : Q * Q) (conf : Q) : Keypoint := (fst pt, snd pt, conf) in
  [c (0, 0) 0; c (0, 0) 0; c (0, 0) 0; c (0, 0) 0; c (0, 0) 0;
   c sh1 1; c sh2 1; c (0, 0) 0; c (0, 0) 0; c wrist 1; c (0, 0) 0;
   c hp1 1; c hp2 1; c (0, 0) 0; c (0, 0) 0; c (0, 0) 0; c (0, 0) 0].

Definition person_b : Person :=
  let c (pt : Q * Q) (conf : Q) : Keypoint := (fst pt, snd pt, conf) in
  [c (0, 0) 0; c (0, 0) 0; c (0, 0) 0; c (0, 0) 0; c (0, 0) 0;
   c (110, 100) 1; c (130, 100) 1; c (0, 0) 0; c (0, 0) 0; c (0, 0) 0; c (0, 0) 0;
   c (110, 50) 1; c (130, 50) 1; c (0, 0) 0; c (0, 0) 0; c (0, 0) 0; c (0, 0) 0].

(** Person A with the wrist 15 pixels, resp. 50 pixels, below B's left
    shoulder at (110, 100). *)
Definition person_a_near : Person := mk_person (100, 100) (120, 100) (100, 150) (120, 150) (110, 115).
Definition person_a_far : Person := mk_person (100, 100) (120, 100) (100, 150) (120, 150) (110, 150).

End Contact.

Module AlertRuns.
Import AlertStore.

(** Successive [add_alert] calls on one [AlertManager], one per [Alert]
    instance, each carrying the id its [Alert.__init__] drew. *)
Fixpoint add_all (io : io_outcome) (xs : list Alert) : ST (list string) :=
  match xs with
  | [] => ret []
  | a :: xs' =>
      i <- add_alert io (AlertObj a) ;;
      is <- add_all io xs' ;;
      ret (i :: is)
  end.

End AlertRuns.

Module StoreLoad.
Import AlertStore.

(** [AlertManager.__init__] followed by [load_alerts].  [f] is alerts.json
    ([None] when it does not exist).  A complete dump is read back as the
    list it holds ([json.load] of [json.dump]); a damaged file makes
    [json.load] raise, which is caught and gives an empty list.  A missing
    file is created by [save_alerts], whose [OSError] escapes the
    constructor.  The result is the loaded list and the file afterwards. *)
Definition init_manager (f : option disk) (io : io_outcome)
    : res unit * (list Alert * option disk) :=
  match f with
  | Some (Dumped l) => (Ok tt, (l, Some (Dumped l)))
  | Some Damaged => (Ok tt, ([], Some Damaged))
  | None =>
      match io with
      | IO_ok => (Ok tt, ([], Some (Dumped [])))
      | IO_open_fail => (Raise OSError, ([], None))
      | IO_write_fail => (Raise OSError, ([], Some Damaged))
      end
  end.

(** The alerts a fresh [AlertManager] loads from the file of [s]. *)
Definition reload (s : Store) (io : io_outcome) : list Alert :=
  fst (snd (init_manager (Some (db s)) io)).

End StoreLoad.

Module Admin.
Import AlertStore.

(** [s.split("T")[0]]: the text before the first ["T"] (all of it when
    there is none). *)
Fixpoint split_T_head (s : string) : string :=
  match s with
  | EmptyString => EmptyString
  | String c s' => if Ascii.eqb c (Ascii.ascii_of_nat 84) (* "T" *) then EmptyString else String c (split_T_head s')
  end.

(** The filter fields of [AlertState]; [filter_date] is [None] or a
    string. *)
Record Filters := mkFilters {
  filter_type : string;
  filter_date : option string;
  show_false_positives : bool
}.

(** The loop body of [get_filtered_alerts]: [false] where it
    [continue]s. *)
Definition keep (f : Filters) (a : Alert) : bool :=
  if negb (show_false_positives f) && is_false_positive a then false
  else if negb (String.eqb (filter_type f) "all") &&
          negb (String.eqb (alert_type a) (filter_type f)) then false
  else match truthy (filter_date f) with
       | Some d => String.eqb (split_T_head (timestamp a)) d
       | None => true
       end.

(** [get_filtered_alerts] on the alerts a fresh [AlertManager] loads. *)
Definition get_filtered_alerts (f : Filters) (l : list Alert) : list Alert :=
  filter (keep f) (sort_desc l).

(** [d] contains no ["T"] ([false] when none). *)
Definition no_T (d : string) : bool :=
  existsb (Ascii.eqb (Ascii.ascii_of_nat 84)) (list_ascii_of_string d).

(** The alerts carrying timestamp [t]. *)
Definition at_ts (t : string) (x : Alert) : bool := String.eqb (timestamp x) t.

End Admin.

Module AudioStream.

Section Stream.
Variable Sample : Type.

(** One pass of the [_process_audio] loop after [self.queue.get]: the
    flattened data extends the local buffer; once it holds [chunk_size]
    samples, the first [chunk_size] are transcribed and the buffer drops
    its first [chunk_size // 2]. *)
Definition process_step (chunk_size : nat) (data : list Sample) (buf : list Sample)
    : option (list Sample) * list Sample :=
  let buf := buf ++ data in
  if Nat.leb chunk_size (length buf)
  then (Some (firstn chunk_size buf), skipn (Nat.div chunk_size 2) buf)
  else (None, buf).

(** The chunks handed to [_transcribe_and_check] for a sequence of queue
    items, and the buffer left. *)
Fixpoint process_all (chunk_size : nat) (datas : list (list Sample))
    (buf : list Sample) : list (list Sample) * list Sample :=
  match datas with
  | [] => ([], buf)
  | d :: ds =>
      let '(out, buf1) := process_step chunk_size d buf in
      let '(outs, buf2) := process_all chunk_size ds buf1 in
      (match out with Some c => c :: outs | None => outs end, buf2)
  end.

End Stream.

Arguments process_step {Sample} _ _ _.
Arguments process_all {Sample} _ _ _.

(** Python's [word in text] on strings: [word] occurs at some position. *)
Fixpoint contains (w t : string) : bool :=
  String.prefix w t ||
  match t with
  | EmptyString => false
  | String _ t' => contains w t'
  end.

(** [_check_for_curse_words]: [True] at the first listed word found. *)
Definition check_for_curse_words (curse_words : list string) (text : string) : bool :=
  existsb (fun w => contains w text) curse_words.

End AudioStream.

Module Worker.
Import AlertStore Evidence.

(** A file written at [p] is present afterwards. *)
Definition add_file (p : option string) (s : Store) : Store :=
  match p with
  | Some q => if existsb (String.eqb q) (files s) then s
              else mkStore (alerts s) (db s) (q :: files s)
  | None => s
  end.

(** The [if detected:] branch of [_pose_detection_thread] and
    [_object_detection_thread] ([prefix] is ["pose"] or ["object"]).
    [clock] is [str(int(time.time()))] and [ts] the [time.strftime]
    stamp, both read within one clock second; [uid] and [now] are drawn
    by [Alert.__init__].  A [Raise] result is caught by the loop's
    [except] (logged, then [time.sleep(1)]). *)
Definition report_detection {F S : Type} (prefix atype desc clock ts uid now : string)
    (video_dir audio_dir : string) (write_ok : bool) (io : io_outcome)
    (v : VideoState F) (a : AudioState S) (s : Store) : res string * Store :=
  let alert_id := (prefix ++ "_" ++ clock)%string in
  let vp := fst (save_alert_video video_dir alert_id ts v) in
  let s1 := add_file vp s in
  match fst (save_alert_audio write_ok audio_dir alert_id ts a) with
  | Raise e => (Raise e, s1)
  | Ok ap =>
      add_alert io (AlertObj (new_alert uid now atype desc vp ap)) (add_file ap s1)
  end.

(** The clip path [save_alert_video] builds for [f"{prefix}_{clock}"]. *)
Definition clip_path (video_dir prefix clock ts : string) : string :=
  (video_dir ++ "/alert_" ++ (prefix ++ "_" ++ clock) ++ "_" ++ ts ++ ".mp4")%string.

End Worker.

(* ================================================================== *)
(** * Properties *)

Module AlertStoreFacts.
Import AlertStore.

Lemma find_alert_app (aid : string) (l1 l2 : list Alert) :
  find_alert aid (l1 ++ l2) =
  match find_alert aid l1 with Some a => Some a | None => find_alert aid l2 end.
Proof.
  induction l1 as [|a l1 IH]; simpl; [reflexivity|].
  destruct (String.eqb (id a) aid); auto.
Qed.

Lemma find_alert_none (aid : string) (l : list Alert) :
  find_alert aid l = None <-> ~ In aid (map id l).
Proof.
  induction l as [|a l IH]; simpl; [tauto|].
  destruct (String.eqb (id a) aid) eqn:E.
  - apply String.eqb_eq in E. split; [discriminate|]. intros H; exfalso; auto.
  - apply String.eqb_neq in E. rewrite IH. intuition.
Qed.

Lemma find_alert_some (aid : string) (l : list Alert) (a : Alert) :
  find_alert aid l = Some a -> id a = aid /\ In a l.
Proof.
  induction l as [|b l IH]; simpl; [discriminate|].
  destruct (String.eqb (id b) aid) eqn:E.
  - intros H; injection H as <-. apply String.eqb_eq in E. auto.
  - intros H; destruct (IH H); auto.
Qed.

Lemma update_first_found (aid : string) (f : Alert -> Alert) (l : list Alert)
    (a : Alert) :
  id (f a) = id a -> find_alert aid l = Some a ->
  find_alert aid (update_first aid f l) = Some (f a).
Proof.
  intros Hid. induction l as [|b l IH]; simpl; [discriminate|].
  destruct (String.eqb (id b) aid) eqn:E.
  - intros H; injection H as <-. simpl. rewrite Hid, E. reflexivity.
  - intros H. simpl. rewrite E. auto.
Qed.

Lemma update_first_ids (aid : string) (f : Alert -> Alert) (l : list Alert) :
  (forall a, id (f a) = id a) -> map id (update_first aid f l) = map id l.
Proof.
  intros Hid. induction l as [|b l IH]; simpl; [reflexivity|].
  destruct (String.eqb (id b) aid); simpl; rewrite ?Hid, ?IH; reflexivity.
Qed.

Lemma remove_first_incl (aid : string) (l : list Alert) (x : string) :
  In x (map id (remove_first aid l)) -> In x (map id l).
Proof.
  induction l as [|b l IH]; simpl; [auto|].
  destruct (String.eqb (id b) aid); simpl; intuition.
Qed.

Lemma remove_first_nodup (aid : string) (l : list Alert) :
  NoDup (map id l) -> NoDup (map id (remove_first aid l)).
Proof.
  induction l as [|b l IH]; simpl; [auto|].
  intros H; inversion H as [|? ? Hnin Hnd]; subst.
  destruct (String.eqb (id b) aid); simpl; [assumption|].
  constructor; [|auto]. intros Hin; apply Hnin, (remove_first_incl aid); exact Hin.
Qed.

Lemma remove_first_once (aid : string) (l : list Alert) :
  count_occ String.string_dec (map id l) aid <= 1 ->
  find_alert aid (remove_first aid l) = None.
Proof.
  induction l as [|b l IH]; simpl; [auto|].
  destruct (String.eqb (id b) aid) eqn:E.
  - apply String.eqb_eq in E. subst aid.
    destruct (String.string_dec (id b) (id b)) as [_|Hn]; [|contradiction].
    intros H. apply find_alert_none. intros Hin.
    apply (count_occ_In String.string_dec) in Hin. lia.
  - apply String.eqb_neq in E. simpl.
    destruct (String.string_dec (id b) aid) as [Heq|_]; [contradiction|].
    rewrite (proj2 (String.eqb_neq _ _) E). exact IH.
Qed.

Lemma remove_first_dup (aid : string) (l : list Alert) :
  2 <= count_occ String.string_dec (map id l) aid ->
  exists b, find_alert aid (remove_first aid l) = Some b.
Proof.
  induction l as [|b l IH]; simpl; [lia|].
  destruct (String.eqb (id b) aid) eqn:E.
  - apply String.eqb_eq in E. subst aid.
    destruct (String.string_dec (id b) (id b)) as [_|Hn]; [|contradiction].
    intros H. destruct (find_alert (id b) l) as [c|] eqn:Hf; [exists c; reflexivity|].
    apply find_alert_none in Hf. rewrite (count_occ_not_In String.string_dec) in Hf. lia.
  - apply String.eqb_neq in E. simpl.
    destruct (String.string_dec (id b) aid) as [Heq|_]; [contradiction|].
    rewrite (proj2 (String.eqb_neq _ _) E). exact IH.
Qed.

Lemma remove_first_gone (aid : string) (l : list Alert) :
  NoDup (map id l) -> find_alert aid (remove_first aid l) = None.
Proof.
  induction l as [|b l IH]; simpl; [auto|].
  intros H; inversion H as [|? ? Hnin Hnd]; subst.
  destruct (String.eqb (id b) aid) eqn:E.
  - apply String.eqb_eq in E; subst aid. apply find_alert_none; exact Hnin.
  - simpl. rewrite E. auto.
Qed.

Lemma set_false_positive_id (fb : string) (a : Alert) :
  id (set_false_positive fb a) = id a.
Proof. reflexivity. Qed.

Lemma leb_false_flip (s1 s2 : string) :
  String.leb s1 s2 = false -> String.leb s2 s1 = true.
Proof.
  intros H. destruct (String.leb_total s1 s2) as [H'|H']; [congruence|exact H'].
Qed.

Lemma insert_desc_perm (a : Alert) (l : list Alert) :
  Permutation (insert_desc a l) (a :: l).
Proof.
  induction l as [|b l IH]; simpl; [auto|].
  destruct (String.leb (timestamp a) (timestamp b)); [|auto].
  eapply perm_trans; [apply perm_skip, IH|apply perm_swap].
Qed.

Lemma insert_desc_hd (a b : Alert) (l : list Alert) :
  HdRel ts_desc b l -> ts_desc b a -> HdRel ts_desc b (insert_desc a l).
Proof.
  intros Hh Hba. destruct l as [|c l]; simpl; [auto|].
  destruct (String.leb (timestamp a) (timestamp c)); auto.
  inversion Hh; auto.
Qed.

Lemma insert_desc_sorted (a : Alert) (l : list Alert) :
  Sorted ts_desc l -> Sorted ts_desc (insert_desc a l).
Proof.
  induction l as [|b l IH]; simpl; intros H; [auto|].
  inversion H as [|? ? Hs Hh]; subst.
  destruct (String.leb (timestamp a) (timestamp b)) eqn:E.
  - constructor; [auto|]. apply insert_desc_hd; assumption.
  - constructor; [exact H|]. constructor. apply leb_false_flip; exact E.
Qed.

Lemma sort_desc_gen (l acc : list Alert) :
  Sorted ts_desc acc ->
  Permutation (fold_left (fun acc a => insert_desc a acc) l acc) (l ++ acc) /\
  Sorted ts_desc (fold_left (fun acc a => insert_desc a acc) l acc).
Proof.
  revert acc. induction l as [|a l IH]; simpl; intros acc Hs; [auto|].
  destruct (IH (insert_desc a acc)) as [Hp Hs']; [apply insert_desc_sorted; exact Hs|].
  split; [|exact Hs'].
  eapply perm_trans; [exact Hp|].
  apply Permutation_trans with (l ++ a :: acc).
  - apply Permutation_app_head, insert_desc_perm.
  - apply Permutation_sym, Permutation_middle.
Qed.

End AlertStoreFacts.

Module AlertStoreClaims.
Import AlertStore AlertRuns AlertStoreFacts.

(** C1 (counterexample): when the write of alerts.json fails during
    [add_alert], the exception reaches the caller, but the new record stays
    in the in-memory list while the file does not hold it. *)
Lemma add_alert_io_failure_keeps_record :
  let a := demo_alert "1a2b3c4d" in
  let r := add_alert IO_write_fail (AlertObj a) empty_store in
  fst r = Raise OSError /\
  alerts (snd r) = [a] /\ alerts (snd r) <> alerts empty_store /\
  db (snd r) <> Dumped (alerts (snd r)).
Proof. simpl. repeat split; discriminate. Qed.

(** C1 (amended): [add_alert] appends the record to the in-memory list
    before saving.  On success it returns the id and the file holds the
    list; when [open] fails or [json.dump] fails the [OSError] propagates
    to the caller (no id is returned), the record stays in memory, and the
    file is left unchanged or damaged respectively. *)
Theorem add_alert_persistence (s : Store) (a : Alert) :
  add_alert IO_ok (AlertObj a) s =
    (Ok (id a), mkStore (alerts s ++ [a]) (Dumped (alerts s ++ [a])) (files s)) /\
  add_alert IO_open_fail (AlertObj a) s =
    (Raise OSError, mkStore (alerts s ++ [a]) (db s) (files s)) /\
  add_alert IO_write_fail (AlertObj a) s =
    (Raise OSError, mkStore (alerts s ++ [a]) Damaged (files s)).
Proof. repeat split. Qed.

(** C4: [mark_as_false_positive] on a present id sets the flag and the
    feedback of that alert, saves and returns [True]; on an unknown id it
    returns [False] and changes nothing, whatever the file system does; a
    freshly added alert is not a false positive and has empty feedback;
    marking again never clears the flag. *)
Theorem mark_as_false_positive_spec :
  (forall s aid fb a,
     find_alert aid (alerts s) = Some a ->
     let s' := mkStore (update_first aid (set_false_positive fb) (alerts s))
                 (Dumped (update_first aid (set_false_positive fb) (alerts s)))
                 (files s) in
     mark_as_false_positive IO_ok aid fb s = (Ok true, s') /\
     exists a', find_alert aid (alerts s') = Some a' /\
       is_false_positive a' = true /\ feedback a' = fb /\ id a' = id a /\
       timestamp a' = timestamp a /\ description a' = description a) /\
  (forall io s aid fb,
     find_alert aid (alerts s) = None ->
     mark_as_false_positive io aid fb s = (Ok false, s)) /\
  (forall s uid now atype desc video audio,
     find_alert uid (alerts s) = None ->
     let a := new_alert uid now atype desc video audio in
     fst (add_alert IO_ok (AlertObj a) s) = Ok uid /\
     find_alert uid (alerts (snd (add_alert IO_ok (AlertObj a) s))) = Some a /\
     is_false_positive a = false /\ feedback a = ""%string) /\
  (forall io s aid fb a,
     find_alert aid (alerts s) = Some a -> is_false_positive a = true ->
     exists a', find_alert aid (alerts (snd (mark_as_false_positive io aid fb s)))
                  = Some a' /\ is_false_positive a' = true).
Proof.
  split; [|split; [|split]].
  - intros s aid fb a Hf s'. split.
    + unfold mark_as_false_positive, bind, get_alert_by_id, gets.
      rewrite Hf. reflexivity.
    + exists (set_false_positive fb a). simpl.
      rewrite (update_first_found aid _ _ a); [|reflexivity|exact Hf].
      repeat split; reflexivity.
  - intros io s aid fb Hf.
    unfold mark_as_false_positive, bind, get_alert_by_id, gets.
    rewrite Hf. reflexivity.
  - intros s uid now atype desc video audio Hf a. simpl.
    rewrite find_alert_app, Hf. simpl. rewrite String.eqb_refl.
    repeat split; reflexivity.
  - intros io s aid fb a Hf Ht.
    exists (set_false_positive fb a). split; [|reflexivity].
    unfold mark_as_false_positive, bind, get_alert_by_id, gets.
    rewrite Hf. destruct io; simpl;
      apply (update_first_found aid _ _ a); first [reflexivity|exact Hf].
Qed.

Lemma mark_as_false_positive_spec_witness :
  let s := mkStore [demo_alert "1a2b3c4d"] (Dumped [demo_alert "1a2b3c4d"]) [] in
  mark_as_false_positive IO_ok "1a2b3c4d" "note" s =
    (Ok true, mkStore [set_false_positive "note" (demo_alert "1a2b3c4d")]
                (Dumped [set_false_positive "note" (demo_alert "1a2b3c4d")]) []) /\
  mark_as_false_positive IO_ok "ffffffff" "note" s = (Ok false, s) /\
  is_false_positive (demo_alert "1a2b3c4d") = false.
Proof.
  intros s. pose proof mark_as_false_positive_spec as [H1 [H2 [H3 _]]].
  split; [|split].
  - apply (proj1 (H1 s "1a2b3c4d"%string "note"%string (demo_alert "1a2b3c4d") eq_refl)).
  - apply H2. reflexivity.
  - apply (H3 empty_store "1a2b3c4d"%string "2026-10-18T10:00:00"%string
             "object_theft"%string
             "Potential theft detected: laptop missing"%string None None eq_refl).
Defined.

(** C5 (counterexample): with two records sharing an id, [delete_alert]
    returns [True] but [get_alert_by_id] still finds a record. *)
Lemma delete_alert_duplicate_id_survives :
  let s := mkStore [demo_alert "1a2b3c4d"; demo_alert "1a2b3c4d"]
             (Dumped [demo_alert "1a2b3c4d"; demo_alert "1a2b3c4d"]) [] in
  let r := delete_alert IO_ok (fun _ => true) "1a2b3c4d" s in
  fst r = Ok true /\
  find_alert "1a2b3c4d" (alerts (snd r)) = Some (demo_alert "1a2b3c4d").
Proof. split; reflexivity. Qed.

(** C5 (amended): [delete_alert] on an unknown id returns [False] and
    changes nothing, whatever the file system and the file write would do.
    On a present id it removes the first record with that id, whatever
    the evidence-file removals do ([rm_ok] arbitrary), rewrites the file
    and returns [True]; a subsequent lookup of that id finds nothing
    when no other record shares the id, and finds a later record when
    one does. *)
Theorem delete_alert_spec :
  (forall io rm_ok s aid,
     find_alert aid (alerts s) = None ->
     delete_alert io rm_ok aid s = (Ok false, s)) /\
  (forall rm_ok s aid a,
     find_alert aid (alerts s) = Some a ->
     delete_alert IO_ok rm_ok aid s =
       (Ok true, mkStore (remove_first aid (alerts s))
                   (Dumped (remove_first aid (alerts s)))
                   (remove_file rm_ok (audio_path a)
                      (remove_file rm_ok (video_path a) (files s))))) /\
  (forall rm_ok s aid,
     count_occ String.string_dec (map id (alerts s)) aid <= 1 ->
     find_alert aid (alerts (snd (delete_alert IO_ok rm_ok aid s))) = None) /\
  (forall rm_ok s aid,
     2 <= count_occ String.string_dec (map id (alerts s)) aid ->
     exists b, find_alert aid (alerts (snd (delete_alert IO_ok rm_ok aid s))) = Some b).
Proof.
  split; [|split; [|split]].
  - intros io rm_ok s aid Hf. unfold delete_alert, bind, get_alert_by_id, gets.
    rewrite Hf. reflexivity.
  - intros rm_ok s aid a Hf. unfold delete_alert, bind, get_alert_by_id, gets.
    rewrite Hf. reflexivity.
  - intros rm_ok s aid Hc. unfold delete_alert, bind, get_alert_by_id, gets.
    destruct (find_alert aid (alerts s)) eqn:Hf; simpl.
    + apply remove_first_once; exact Hc.
    + exact Hf.
  - intros rm_ok s aid Hc. unfold delete_alert, bind, get_alert_by_id, gets.
    destruct (find_alert aid (alerts s)) eqn:Hf; simpl.
    + apply remove_first_dup; exact Hc.
    + apply find_alert_none in Hf. rewrite (count_occ_not_In String.string_dec) in Hf. lia.
Qed.

Lemma delete_alert_spec_witness :
  let s := mkStore [demo_alert "1a2b3c4d"] (Dumped [demo_alert "1a2b3c4d"]) [] in
  delete_alert IO_open_fail (fun _ => false) "ffffffff" s = (Ok false, s) /\
  delete_alert IO_ok (fun _ => false) "1a2b3c4d" s =
    (Ok true, mkStore [] (Dumped []) []) /\
  find_alert "1a2b3c4d"
    (alerts (snd (delete_alert IO_ok (fun _ => false) "1a2b3c4d" s))) = None /\
  (exists b, find_alert "1a2b3c4d"
    (alerts (snd (delete_alert IO_ok (fun _ => false) "1a2b3c4d"
       (mkStore [demo_alert "1a2b3c4d"; demo_alert "1a2b3c4d"] (Dumped []) []))))
     = Some b).
Proof.
  intros s. pose proof delete_alert_spec as [H1 [H2 [H3 H4]]].
  split; [|split; [|split]].
  - apply H1. reflexivity.
  - apply (H2 (fun _ => false) s "1a2b3c4d"%string (demo_alert "1a2b3c4d"%string)).
    reflexivity.
  - apply H3. vm_compute. lia.
  - apply H4. vm_compute. lia.
Defined.

(** C6: [get_all_alerts] returns every stored alert, in descending
    timestamp order, whatever the order of [self.alerts]. *)
Theorem get_all_alerts_sorted (s : Store) :
  get_all_alerts s = (Ok (sort_desc (alerts s)), s) /\
  Permutation (sort_desc (alerts s)) (alerts s) /\
  Sorted ts_desc (sort_desc (alerts s)).
Proof.
  destruct (sort_desc_gen (alerts s) [] (Sorted_nil _)) as [Hp Hs].
  rewrite app_nil_r in Hp. repeat split; assumption.
Qed.

Lemma add_all_ok (xs : list Alert) (s : Store) :
  fst (add_all IO_ok xs s) = Ok (map id xs) /\
  alerts (snd (add_all IO_ok xs s)) = alerts s ++ xs.
Proof.
  revert s. induction xs as [|a xs IH]; intros s; simpl.
  - rewrite app_nil_r. auto.
  - unfold bind at 1. simpl. unfold bind. simpl.
    destruct (IH (mkStore (alerts s ++ [a]) (Dumped (alerts s ++ [a])) (files s)))
      as [H1 H2].
    destruct (add_all IO_ok xs _) as [[r|e] s'] eqn:E; simpl in *.
    + injection H1 as ->. rewrite H2, <- app_assoc. auto.
    + discriminate.
Qed.

(** C8 (code bug): [Alert.__init__] draws [str(uuid.uuid4())[:8]]
    ("Generate short unique ID") and [add_alert] appends without checking
    the drawn id against the stored ones.  Two alerts whose drawn ids
    coincide are both stored: after 2 successful adds on an empty store
    the store holds 2 records with the same id, i.e. 1 distinct id.  In
    general an add whose drawn id is already stored leaves two records
    with that id; the ids after successful adds are the stored ids
    followed by the drawn ones, so from an empty store the ids are
    distinct exactly when the drawn ids are; [mark_as_false_positive]
    and [delete_alert] keep distinct ids distinct. *)
Theorem alert_ids_not_unique :
  add_all IO_ok [demo_alert "1a2b3c4d"; demo_alert "1a2b3c4d"] empty_store =
    (Ok ["1a2b3c4d"; "1a2b3c4d"]%string,
     mkStore [demo_alert "1a2b3c4d"; demo_alert "1a2b3c4d"]
             (Dumped [demo_alert "1a2b3c4d"; demo_alert "1a2b3c4d"]) []) /\
  count_occ String.string_dec
    (map id [demo_alert "1a2b3c4d"; demo_alert "1a2b3c4d"]) "1a2b3c4d"%string = 2 /\
  (forall io s a,
     In (id a) (map id (alerts s)) ->
     2 <= count_occ String.string_dec
            (map id (alerts (snd (add_alert io (AlertObj a) s)))) (id a)) /\
  (forall xs s,
     fst (add_all IO_ok xs s) = Ok (map id xs) /\
     map id (alerts (snd (add_all IO_ok xs s))) = map id (alerts s) ++ map id xs) /\
  (forall xs,
     NoDup (map id (alerts (snd (add_all IO_ok xs empty_store)))) <-> NoDup (map id xs)) /\
  (forall io s aid fb,
     NoDup (map id (alerts s)) ->
     NoDup (map id (alerts (snd (mark_as_false_positive io aid fb s))))) /\
  (forall io rm_ok s aid,
     NoDup (map id (alerts s)) ->
     NoDup (map id (alerts (snd (delete_alert io rm_ok aid s))))).
Proof.
  split; [reflexivity|]. split; [reflexivity|].
  split; [|split; [|split; [|split]]].
  - intros io s a Hin.
    assert (Hl : 2 <= count_occ String.string_dec (map id (alerts s ++ [a])) (id a)).
    { rewrite map_app, count_occ_app. simpl.
      destruct (String.string_dec (id a) (id a)) as [_|Hn]; [|contradiction].
      apply (count_occ_In String.string_dec) in Hin. lia. }
    destruct io; exact Hl.
  - intros xs s. destruct (add_all_ok xs s) as [H1 H2].
    rewrite H2, map_app. auto.
  - intros xs. destruct (add_all_ok xs empty_store) as [_ H2]. rewrite H2. reflexivity.
  - intros io s aid fb Hnd.
    unfold mark_as_false_positive, bind, get_alert_by_id, gets.
    assert (Hl : NoDup (map id (update_first aid (set_false_positive fb) (alerts s)))).
    { rewrite update_first_ids; [exact Hnd|reflexivity]. }
    destruct (find_alert aid (alerts s)); [destruct io|]; simpl; assumption.
  - intros io rm_ok s aid Hnd.
    unfold delete_alert, bind, get_alert_by_id, gets.
    assert (Hl := remove_first_nodup aid (alerts s) Hnd).
    destruct (find_alert aid (alerts s)); [destruct io|]; simpl; assumption.
Qed.

End AlertStoreClaims.

Module EvidenceFacts.
Import Evidence.

Lemma lastn_length {A} (n : nat) (l : list A) : length (lastn n l) <= n.
Proof. unfold lastn. rewrite length_skipn. lia. Qed.

Lemma lastn_all {A} (n : nat) (l : list A) : length l <= n -> lastn n l = l.
Proof. intros H. unfold lastn. replace (length l - n) with 0 by lia. reflexivity. Qed.

Lemma lastn_app_long {A} (n : nat) (p q : list A) :
  n <= length q -> lastn n (p ++ q) = lastn n q.
Proof.
  intros H. unfold lastn. rewrite length_app.
  replace (length p + length q - n) with (length p + (length q - n)) by lia.
  rewrite skipn_app, skipn_all2 by lia. simpl. f_equal. lia.
Qed.

Lemma lastn_lastn_app {A} (n : nat) (l m : list A) :
  lastn n (lastn n l ++ m) = lastn n (l ++ m).
Proof.
  destruct (Nat.le_gt_cases (length l) n) as [Hle|Hgt].
  - rewrite (lastn_all n l Hle). reflexivity.
  - rewrite <- (firstn_skipn (length l - n) l) at 2.
    rewrite <- app_assoc. fold (lastn n l).
    symmetry. apply lastn_app_long.
    rewrite length_app. unfold lastn. rewrite length_skipn. lia.
Qed.

(** One [read_frame] step is [lastn] on a buffer at most one too long. *)
Lemma pop_front_lastn {A} (n : nat) (b : list A) :
  length b <= S n ->
  (if Nat.ltb n (length b) then tl b else b) = lastn n b.
Proof.
  intros H. unfold lastn. destruct (Nat.ltb_spec n (length b)).
  - replace (length b - n) with 1 by lia. destruct b; reflexivity.
  - replace (length b - n) with 0 by lia. reflexivity.
Qed.

(** One [audio_callback] trim is [lastn] as soon as the capacity is
    positive. *)
Lemma slice_neg_lastn {A} (n : nat) (b : list A) :
  0 < n ->
  (if Nat.ltb n (length b) then slice_neg n b else b) = lastn n b.
Proof.
  intros Hn. unfold lastn. destruct n as [|n]; [lia|].
  destruct (Nat.ltb_spec (S n) (length b)); [reflexivity|].
  replace (length b - S n) with 0 by lia. reflexivity.
Qed.

Lemma read_all_lastn {A} (cap : nat) (xs hist : list A) (v : VideoState A) :
  frame_buffer v = lastn cap hist ->
  frame_buffer (read_all cap xs v) = lastn cap (hist ++ xs).
Proof.
  revert hist v. induction xs as [|x xs IH]; intros hist v Hv; simpl.
  - rewrite app_nil_r. exact Hv.
  - replace (hist ++ x :: xs) with ((hist ++ [x]) ++ xs) by (rewrite <- app_assoc; reflexivity).
    apply IH. simpl.
    rewrite Hv, pop_front_lastn.
    + apply lastn_lastn_app.
    + rewrite length_app. pose proof (lastn_length cap hist). simpl. lia.
Qed.

Lemma callback_all_lastn {A} (cap : nat) (cs : list (list A)) (hist : list A)
    (a : AudioState A) :
  0 < cap -> audio_buffer a = lastn cap hist ->
  audio_buffer (callback_all cap cs a) = lastn cap (hist ++ concat cs).
Proof.
  intros Hc. revert hist a. induction cs as [|c cs IH]; intros hist a Ha; simpl.
  - rewrite app_nil_r. exact Ha.
  - rewrite app_assoc. apply IH. simpl.
    rewrite Ha, slice_neg_lastn by exact Hc. apply lastn_lastn_app.
Qed.

Lemma callback_all_zero {A} (cs : list (list A)) (a : AudioState A) :
  audio_buffer (callback_all 0 cs a) = audio_buffer a ++ concat cs.
Proof.
  revert a. induction cs as [|c cs IH]; intros a; simpl.
  - rewrite app_nil_r. reflexivity.
  - rewrite IH. simpl. rewrite app_assoc.
    destruct (Nat.ltb 0 _); reflexivity.
Qed.

End EvidenceFacts.

Module EvidenceClaims.
Import Evidence EvidenceFacts.

(** Rolling buffers from empty: the video buffer holds the last [cap]
    frames at every capacity, the audio buffer the last [cap] samples at
    every positive capacity, and both stay within [cap] after each push. *)
Lemma rolling_buffers_keep_last {A} (cap : nat) (xs : list A) :
  frame_buffer (read_all cap xs (mkVideo [] [])) = lastn cap xs /\
  (forall k, length (frame_buffer (read_all cap (firstn k xs) (mkVideo [] []))) <= cap) /\
  (0 < cap ->
   audio_buffer (callback_all cap (map (fun x => [x]) xs) (mkAudio [] [])) = lastn cap xs /\
   forall k, length (audio_buffer (callback_all cap (firstn k (map (fun x => [x]) xs))
                                    (mkAudio [] []))) <= cap).
Proof.
  split; [|split].
  - apply (read_all_lastn cap xs []). reflexivity.
  - intros k. rewrite (read_all_lastn cap _ []) by reflexivity. apply lastn_length.
  - intros Hc. split.
    + rewrite (callback_all_lastn cap _ []) by (auto || reflexivity).
      f_equal. simpl. clear. induction xs as [|x xs IH]; simpl; [reflexivity|].
      rewrite IH. reflexivity.
    + intros k. rewrite (callback_all_lastn cap _ []) by (auto || reflexivity).
      apply lastn_length.
Qed.

(** C2 (code bug): with capacity 0 the audio trim [self.audio_buffer[-0:]]
    keeps the whole list, so the audio buffer grows with every callback,
    while the video buffer at the same capacity stays empty. *)
Theorem audio_buffer_capacity_zero_keeps_all :
  audio_buffer (callback_all 0 [[1]; [2]; [3]] (mkAudio [] [])) = [1; 2; 3] /\
  length (audio_buffer (callback_all 0 [[1]; [2]; [3]] (mkAudio [] []))) > 0 /\
  frame_buffer (read_all 0 [1; 2; 3] (mkVideo [] [])) = [].
Proof. vm_compute. repeat split; auto. Qed.

(** C9: [save_alert_video] and [save_alert_audio] return [None] exactly
    when their buffer is empty, and leave the buffer as it was, whether
    the export writes a file, returns [None] or raises. *)
Theorem evidence_export_keeps_buffer {F S : Type} :
  (forall video_dir alert_id ts (v : VideoState F),
     (fst (save_alert_video video_dir alert_id ts v) = None <-> frame_buffer v = []) /\
     frame_buffer (snd (save_alert_video video_dir alert_id ts v)) = frame_buffer v) /\
  (forall write_ok audio_dir alert_id ts (a : AudioState S),
     (fst (save_alert_audio write_ok audio_dir alert_id ts a) = Ok None <->
      audio_buffer a = []) /\
     audio_buffer (snd (save_alert_audio write_ok audio_dir alert_id ts a)) =
       audio_buffer a).
Proof.
  split.
  - intros video_dir alert_id ts [buf w]. unfold save_alert_video. simpl.
    destruct buf; simpl; split; try reflexivity; split; congruence.
  - intros write_ok audio_dir alert_id ts [buf w]. unfold save_alert_audio. simpl.
    destruct buf as [|x buf]; simpl; [split; [tauto|reflexivity]|].
    destruct write_ok; simpl; split; try reflexivity; split; congruence.
Qed.

End EvidenceClaims.

Module TrackerFacts.
Import Tracker.

Lemma current_objects_unwatched_gen (now : Q) (dets : list Detection) (acc : Dict) :
  forallb (fun d => negb (is_watched (class_name d))) dets = true ->
  fold_left (fun cur d => if is_watched (class_name d)
                          then dict_set (obj_id_of d) (obj_of now d) cur
                          else cur) dets acc = acc.
Proof.
  revert acc. induction dets as [|d dets IH]; intros acc H; simpl; [reflexivity|].
  simpl in H. apply andb_prop in H as [Hd H].
  destruct (is_watched (class_name d)); [discriminate|]. apply IH; exact H.
Qed.

Lemma current_objects_unwatched (now : Q) (dets : list Detection) :
  forallb (fun d => negb (is_watched (class_name d))) dets = true ->
  current_objects now dets = [].
Proof. apply current_objects_unwatched_gen. Qed.

Lemma update_tracked (now : Q) (dets : list Detection) (st : TrackerState) :
  tracked_objects (snd (update_object_tracking now dets st)) = current_objects now dets.
Proof.
  unfold update_object_tracking. destruct (tracked_objects st); [reflexivity|].
  destruct (find_missing _ _ _); reflexivity.
Qed.

Lemma update_missing (now : Q) (dets : list Detection) (st : TrackerState) :
  missing_objects (snd (update_object_tracking now dets st)) =
  match tracked_objects st with
  | [] => []
  | tracked => find_missing now tracked (current_objects now dets)
  end.
Proof.
  unfold update_object_tracking. destruct (tracked_objects st); [reflexivity|].
  destruct (find_missing _ _ _); reflexivity.
Qed.

Lemma find_missing_gen (now : Q) (tracked cur : Dict) (acc : list TrackedObj)
    (v : TrackedObj) :
  In v (fold_left (fun miss kv =>
               let '(k, v) := kv in
               if dict_mem k cur then miss
               else if Qle_bool (now - last_seen v) 3 then miss
               else miss ++ [v]) tracked acc) ->
  In v acc \/
  exists k, In (k, v) tracked /\ dict_mem k cur = false /\
            Qle_bool (now - last_seen v) 3 = false.
Proof.
  revert acc. induction tracked as [|[k w] tracked IH]; intros acc H; simpl in H.
  - left; exact H.
  - destruct (dict_mem k cur) eqn:Hm.
    + destruct (IH acc H) as [H'|[k' [Hin Hr]]]; [left; exact H'|].
      right. exists k'. split; [right; exact Hin|exact Hr].
    + destruct (Qle_bool (now - last_seen w) 3) eqn:Hq.
      * destruct (IH acc H) as [H'|[k' [Hin Hr]]]; [left; exact H'|].
        right. exists k'. split; [right; exact Hin|exact Hr].
      * destruct (IH _ H) as [H'|[k' [Hin Hr]]].
        -- apply in_app_or in H' as [H'|[<-|[]]]; [left; exact H'|].
           right. exists k. split; [left; reflexivity|split; assumption].
        -- right. exists k'. split; [right; exact Hin|exact Hr].
Qed.

(** Only an object tracked at the previous tick and absent now, for more
    than 3 seconds since it was last seen, is reported missing. *)
Lemma missing_from_previous_tick (now : Q) (dets : list Detection)
    (st : TrackerState) (v : TrackedObj) :
  In v (missing_objects (snd (update_object_tracking now dets st))) ->
  exists k, In (k, v) (tracked_objects st) /\
            dict_mem k (current_objects now dets) = false /\
            Qle_bool (now - last_seen v) 3 = false.
Proof.
  rewrite update_missing. destruct (tracked_objects st) as [|kv tr] eqn:Ht.
  - intros [].
  - intros H. rewrite <- Ht. rewrite <- Ht in H.
    destruct (find_missing_gen now _ _ [] v H) as [[]|Hk]. exact Hk.
Qed.

End TrackerFacts.

Module TrackerClaims.
Import Tracker TrackerFacts.

(** C3 (code bug): a laptop seen at times 0..3 (ticks one second apart)
    and absent from time 4 is never reported, not even at time 7 or 8,
    when more than 3 seconds have passed since it was last seen: at its
    first absent tick only 1 second has passed, and [tracked_objects] is
    then replaced by the current detections, which drops it.  In general
    only objects tracked at the previous tick can be reported. *)
Theorem theft_never_reported_after_first_absent_tick :
  fst (run_ticks theft_scene initial_tracker) = repeat (false, ""%string) 9 /\
  Qle_bool (7 - 3) 3 = false /\
  (forall now dets st v,
     In v (missing_objects (snd (update_object_tracking now dets st))) ->
     exists k, In (k, v) (tracked_objects st) /\
               dict_mem k (current_objects now dets) = false).
Proof.
  split; [vm_compute; reflexivity|split; [vm_compute; reflexivity|]].
  intros now dets st v H.
  destruct (missing_from_previous_tick now dets st v H) as [k [H1 [H2 _]]].
  exists k. split; assumption.
Qed.

(** C10: after a tick with no watched-class detection the tracked set is
    empty, and the next tick re-seeds it from its own detections and
    returns [(False, "")], whatever it detects. *)
Theorem empty_tick_reseeds (st : TrackerState) (now : Q) (dets : list Detection) :
  forallb (fun d => negb (is_watched (class_name d))) dets = true ->
  tracked_objects (snd (update_object_tracking now dets st)) = [] /\
  forall now' dets',
    update_object_tracking now' dets' (snd (update_object_tracking now dets st)) =
      ((false, ""%string), mkTracker (current_objects now' dets') []).
Proof.
  intros H.
  assert (Ht : tracked_objects (snd (update_object_tracking now dets st)) = []).
  { rewrite update_tracked. apply current_objects_unwatched; exact H. }
  split; [exact Ht|].
  intros now' dets'. unfold update_object_tracking at 1. rewrite Ht. reflexivity.
Qed.

Lemma empty_tick_reseeds_witness :
  let st := snd (run_ticks [(0%Q, [laptop; cup])] initial_tracker) in
  tracked_objects (snd (update_object_tracking 1 [mkDet "person" 0 0 50 100] st)) = [] /\
  update_object_tracking 10 [cup]
    (snd (update_object_tracking 1 [mkDet "person" 0 0 50 100] st)) =
    ((false, ""%string), mkTracker (current_objects 10 [cup]) []).
Proof.
  intros st. destruct (empty_tick_reseeds st 1 [mkDet "person" 0 0 50 100])
    as [H1 H2]; [vm_compute; reflexivity|].
  split; [exact H1|apply H2].
Defined.

End TrackerClaims.

Module ContactFacts.
Import Contact.
Local Open Scope Q_scope.

Lemma qlt_iff (x y : Q) : qlt x y = true <-> x < y.
Proof.
  unfold qlt. rewrite negb_true_iff. split.
  - intros H. apply Qnot_le_lt. intros H'. apply Qle_bool_iff in H'. congruence.
  - intros H. destruct (Qle_bool y x) eqn:E; [|reflexivity].
    apply Qle_bool_iff in E. exfalso. apply (Qlt_not_le x y); assumption.
Qed.

Lemma not_qlt_iff (x y : Q) : qlt x y = false <-> y <= x.
Proof.
  unfold qlt. rewrite negb_false_iff. apply Qle_bool_iff.
Qed.

Lemma below_qmin (m : option Q) (d t : Q) :
  below (qmin_opt m d) t = below m t || qlt d t.
Proof.
  destruct m as [m|]; simpl; [|reflexivity].
  apply eq_true_iff_eq. rewrite orb_true_iff, !qlt_iff. apply Q.min_lt_iff.
Qed.

Lemma below_inner (a : Keypoint) (p2 : Person) (js : list nat) (m : option Q) (t : Q) :
  below (fold_left (fun m j =>
           if qlt (kconf (kp p2 j)) (1 # 2) then m
           else qmin_opt m (dist2 a (kp p2 j))) js m) t =
  below m t || existsb (fun j => negb (qlt (kconf (kp p2 j)) (1 # 2)) &&
                                 qlt (dist2 a (kp p2 j)) t) js.
Proof.
  revert m. induction js as [|j js IH]; intros m; simpl.
  - rewrite orb_false_r. reflexivity.
  - rewrite IH. destruct (qlt (kconf (kp p2 j)) (1 # 2)); simpl; [reflexivity|].
    rewrite below_qmin, orb_assoc. reflexivity.
Qed.

Lemma below_outer (p1 p2 : Person) (is : list nat) (m : option Q) (t : Q) :
  below (fold_left (fun m i =>
    if qlt (kconf (kp p1 i)) (1 # 2) then m
    else fold_left (fun m j =>
           if qlt (kconf (kp p2 j)) (1 # 2) then m
           else qmin_opt m (dist2 (kp p1 i) (kp p2 j))) key_points m) is m) t =
  below m t ||
  existsb (fun i => negb (qlt (kconf (kp p1 i)) (1 # 2)) &&
     existsb (fun j => negb (qlt (kconf (kp p2 j)) (1 # 2)) &&
                       qlt (dist2 (kp p1 i) (kp p2 j)) t) key_points) is.
Proof.
  revert m. induction is as [|i is IH]; intros m; cbn [fold_left existsb].
  - rewrite orb_false_r. reflexivity.
  - rewrite IH. destruct (qlt (kconf (kp p1 i)) (1 # 2)); cbn [negb andb orb];
      [reflexivity|].
    rewrite below_inner, orb_assoc. reflexivity.
Qed.

Lemma below_min_distance (p1 p2 : Person) (t : Q) :
  below (calculate_minimum_distance p1 p2) t =
  existsb (fun i => negb (qlt (kconf (kp p1 i)) (1 # 2)) &&
     existsb (fun j => negb (qlt (kconf (kp p2 j)) (1 # 2)) &&
                       qlt (dist2 (kp p1 i) (kp p2 j)) t) key_points) key_points.
Proof. unfold calculate_minimum_distance. cbv zeta. rewrite below_outer. reflexivity. Qed.

Ltac split_bools :=
  repeat match goal with
  | H : _ && _ = true |- _ => apply andb_prop in H as [? ?]
  | H : negb _ = true |- _ => apply negb_true_iff in H
  | H : qlt _ _ = false |- _ => apply not_qlt_iff in H
  | H : qlt _ _ = true |- _ => apply qlt_iff in H
  end.

Lemma close_bodies_iff (p1 p2 : Person) :
  below (calculate_minimum_distance p1 p2) 900 = true <-> close_bodies p1 p2.
Proof.
  rewrite below_min_distance, existsb_exists. split.
  - intros [i [Hi H]]. split_bools. apply existsb_exists in H0 as [j [Hj H']].
    split_bools. exists i, j. repeat split; assumption.
  - intros [i [j [Hi [Hj [Hc1 [Hc2 Hd]]]]]]. exists i. split; [exact Hi|].
    apply andb_true_intro; split.
    + apply negb_true_iff, not_qlt_iff; exact Hc1.
    + apply existsb_exists. exists j. split; [exact Hj|].
      apply andb_true_intro; split.
      * apply negb_true_iff, not_qlt_iff; exact Hc2.
      * apply qlt_iff; exact Hd.
Qed.

Lemma facing_iff (p1 p2 : Person) :
  are_facing_each_other p1 p2 = true <-> facing p1 p2.
Proof.
  unfold are_facing_each_other, facing. cbv zeta.
  destruct (qlt 0 (norm2 (trunk p1))) eqn:E1, (qlt 0 (norm2 (trunk p2))) eqn:E2;
    simpl; split_bools; rewrite ?qlt_iff.
  - tauto.
  - split; [discriminate|]. intros [_ [H _]].
    exfalso; apply (Qlt_not_le _ _ H E2).
  - split; [discriminate|]. intros [H _].
    exfalso; apply (Qlt_not_le _ _ H E1).
  - split; [discriminate|]. intros [H _].
    exfalso; apply (Qlt_not_le _ _ H E1).
Qed.

Lemma hands_touch_iff (p1 p2 : Person) :
  hands_touch p1 p2 = true <-> wrist_on p1 p2.
Proof.
  unfold hands_touch, wrist_on. cbv zeta. rewrite existsb_exists. split.
  - intros [h [Hh H]]. destruct (qlt (kconf (kp p1 h)) (1 # 2)) eqn:Eh;
      [discriminate|].
    apply existsb_exists in H as [b [Hb H]].
    destruct (qlt (kconf (kp p2 b)) (1 # 2)) eqn:Eb; [discriminate|].
    split_bools. exists h, b. repeat split; assumption.
  - intros [h [b [Hh [Hb [Hc1 [Hc2 Hd]]]]]]. exists h. split; [exact Hh|].
    apply not_qlt_iff in Hc1. rewrite Hc1.
    apply existsb_exists. exists b. split; [exact Hb|].
    apply not_qlt_iff in Hc2. rewrite Hc2. apply qlt_iff; exact Hd.
Qed.

Lemma pair_alarm_iff (p1 p2 : Person) :
  pair_alarm p1 p2 = true <-> contact_condition p1 p2.
Proof.
  unfold pair_alarm, contact_condition, detect_hand_contact.
  rewrite <- close_bodies_iff, <- facing_iff, <- !hands_touch_iff, <- orb_true_iff.
  destruct (below _ _), (are_facing_each_other _ _); simpl; intuition discriminate.
Qed.

Lemma any_pair_iff (ps : list Person) :
  any_pair ps = true <->
  exists i j, (i < j < length ps)%nat /\ contact_condition (nth i ps []) (nth j ps []).
Proof.
  induction ps as [|p rest IH]; simpl.
  - split; [discriminate|]. intros [i [j [H _]]]. lia.
  - rewrite orb_true_iff, existsb_exists, IH. split.
    + intros [[q [Hq Ha]]|[i [j [Hij Hc]]]].
      * apply In_nth with (d := []) in Hq as [n [Hn Hnth]].
        exists 0%nat, (S n). split; [lia|]. simpl. rewrite Hnth.
        apply pair_alarm_iff; exact Ha.
      * exists (S i), (S j). split; [lia|exact Hc].
    + intros [i [j [Hij Hc]]]. destruct i as [|i]; destruct j as [|j]; [lia| |lia|].
      * left. exists (nth j rest []). split; [apply nth_In; lia|].
        apply pair_alarm_iff; exact Hc.
      * right. exists i, j. split; [lia|exact Hc].
Qed.

End ContactFacts.

Module ContactClaims.
Import Contact ContactFacts.

(** C7: [check_inappropriate_contact] returns [(True, message)] with a
    non-empty message exactly when some pair [i < j] of persons meets the
    three conditions (close confident shoulders/hips, facing trunks,
    a confident wrist within 20 pixels of the other's confident shoulder
    or hip), and [(False, "")] otherwise; on the synthetic scene of
    section 8 it fires with the wrist 15 pixels from the other's shoulder
    and not with the wrist 50 pixels away. *)
Theorem check_inappropriate_contact_spec :
  (forall ps,
     (check_inappropriate_contact ps = (true, contact_message) <->
      exists i j, (i < j < length ps)%nat /\
                  contact_condition (nth i ps []) (nth j ps [])) /\
     (check_inappropriate_contact ps = (false, ""%string) <->
      ~ exists i j, (i < j < length ps)%nat /\
                    contact_condition (nth i ps []) (nth j ps []))) /\
  contact_message <> ""%string /\
  check_inappropriate_contact [person_a_near; person_b] = (true, contact_message) /\
  check_inappropriate_contact [person_a_far; person_b] = (false, ""%string).
Proof.
  split; [|split; [discriminate|split; vm_compute; reflexivity]].
  intros ps. rewrite <- any_pair_iff. unfold check_inappropriate_contact.
  destruct (Nat.ltb_spec (length ps) 2) as [Hl|Hl].
  - assert (Ha : any_pair ps = false).
    { destruct (any_pair ps) eqn:E; [|reflexivity].
      apply any_pair_iff in E as [i [j [H _]]]. lia. }
    rewrite Ha. split; split; congruence.
  - destruct (any_pair ps); split; split; congruence.
Qed.

End ContactClaims.

Module StoreExtraFacts.
Import AlertStore StoreLoad Admin.

Lemma string_leb_refl (s : string) : String.leb s s = true.
Proof.
  unfold String.leb. induction s as [|c s IH]; simpl; [reflexivity|].
  unfold Ascii.compare. rewrite N.compare_refl. exact IH.
Qed.

Lemma string_leb_trans (s1 s2 s3 : string) :
  String.leb s1 s2 = true -> String.leb s2 s3 = true -> String.leb s1 s3 = true.
Proof.
  unfold String.leb. revert s2 s3.
  induction s1 as [|c1 s1 IH]; intros [|c2 s2] [|c3 s3]; simpl; try easy.
  unfold Ascii.compare.
  destruct (N.compare_spec (Ascii.N_of_ascii c1) (Ascii.N_of_ascii c2)) as [E12|E12|E12];
  destruct (N.compare_spec (Ascii.N_of_ascii c2) (Ascii.N_of_ascii c3)) as [E23|E23|E23];
  destruct (N.compare_spec (Ascii.N_of_ascii c1) (Ascii.N_of_ascii c3)) as [E13|E13|E13];
  try easy; try lia.
  apply IH.
Qed.

Lemma ts_desc_trans : Transitive ts_desc.
Proof.
  intros a b c Hab Hbc. unfold ts_desc in *. eapply string_leb_trans; eassumption.
Qed.

Lemma sort_desc_strongly_sorted (l : list Alert) : StronglySorted ts_desc (sort_desc l).
Proof.
  apply Sorted_StronglySorted; [exact ts_desc_trans|].
  unfold sort_desc. apply (proj2 (AlertStoreFacts.sort_desc_gen l [] (Sorted_nil _))).
Qed.

Lemma sort_desc_perm (l : list Alert) : Permutation (sort_desc l) l.
Proof.
  unfold sort_desc. rewrite <- (app_nil_r l) at 2.
  apply (proj1 (AlertStoreFacts.sort_desc_gen l [] (Sorted_nil _))).
Qed.

Lemma strongly_sorted_filter {A} (R : A -> A -> Prop) (f : A -> bool) (l : list A) :
  StronglySorted R l -> StronglySorted R (filter f l).
Proof.
  induction l as [|x l IH]; simpl; intros H; [constructor|].
  inversion H as [|? ? Hs Hf]; subst.
  destruct (f x); [|auto]. constructor; [auto|].
  apply Forall_forall. intros y Hy. apply filter_In in Hy.
  exact (proj1 (Forall_forall _ _) Hf y (proj1 Hy)).
Qed.

Lemma filter_none {A} (f : A -> bool) (l : list A) :
  (forall c, In c l -> f c = false) -> filter f l = [].
Proof.
  induction l as [|x l IH]; simpl; intros H; [reflexivity|].
  rewrite (H x (or_introl eq_refl)). apply IH. intros c Hc. apply H. right. exact Hc.
Qed.

Lemma filter_all {A} (f : A -> bool) (l : list A) :
  (forall c, In c l -> f c = true) -> filter f l = l.
Proof.
  induction l as [|x l IH]; simpl; intros H; [reflexivity|].
  rewrite (H x (or_introl eq_refl)), IH; [reflexivity|].
  intros c Hc. apply H. right. exact Hc.
Qed.

(** Filtering on one timestamp [t] commutes with one insertion. *)
Lemma insert_desc_at_ts (t : string) (a : Alert) (acc : list Alert) :
  StronglySorted ts_desc acc ->
  filter (at_ts t) (insert_desc a acc) =
  filter (at_ts t) acc ++ (if at_ts t a then [a] else []).
Proof.
  induction acc as [|b acc IH]; intros Hs; simpl.
  - destruct (at_ts t a); reflexivity.
  - inversion Hs as [|? ? Hs' Hf]; subst.
    destruct (String.leb (timestamp a) (timestamp b)) eqn:E; simpl.
    + rewrite IH by exact Hs'. destruct (at_ts t b); reflexivity.
    + destruct (at_ts t a) eqn:Ea; simpl.
      * assert (Hnone : forall c, In c (b :: acc) -> at_ts t c = false).
        { unfold at_ts in *. apply String.eqb_eq in Ea.
          intros c [Hc|Hc]; apply String.eqb_neq; intros Ec.
          - subst c. rewrite Ea, Ec, string_leb_refl in E. discriminate.
          - pose proof (proj1 (Forall_forall _ _) Hf c Hc) as Hbc. unfold ts_desc in Hbc.
            rewrite Ec in Hbc. rewrite Ea in E. congruence. }
        assert (Hn : filter (at_ts t) (b :: acc) = []) by (apply filter_none; exact Hnone).
        simpl in Hn. rewrite Hn. reflexivity.
      * rewrite app_nil_r. reflexivity.
Qed.

Lemma sort_desc_at_ts (t : string) (l acc : list Alert) :
  StronglySorted ts_desc acc ->
  filter (at_ts t) (fold_left (fun acc a => insert_desc a acc) l acc) =
  filter (at_ts t) acc ++ filter (at_ts t) l.
Proof.
  revert acc. induction l as [|a l IH]; intros acc Hs; simpl.
  - rewrite app_nil_r. reflexivity.
  - rewrite IH.
    + rewrite insert_desc_at_ts by exact Hs. rewrite <- app_assoc.
      destruct (at_ts t a); reflexivity.
    + apply Sorted_StronglySorted; [exact ts_desc_trans|].
      apply AlertStoreFacts.insert_desc_sorted. apply StronglySorted_Sorted. exact Hs.
Qed.

Lemma update_first_map {B} (g : Alert -> B) (aid : string) (f : Alert -> Alert)
    (l : list Alert) :
  (forall a, g (f a) = g a) -> map g (update_first aid f l) = map g l.
Proof.
  intros Hg. induction l as [|a l IH]; simpl; [reflexivity|].
  destruct (String.eqb (id a) aid); simpl; rewrite ?Hg, ?IH; reflexivity.
Qed.

Lemma remove_file_incl (rm_ok : string -> bool) (q : option string) (fs : list string) :
  incl (remove_file rm_ok q fs) fs.
Proof.
  unfold remove_file. destruct (truthy q) as [r|]; [|apply incl_refl].
  destruct (existsb _ fs), (rm_ok r); try apply incl_refl.
  intros x Hx. apply filter_In in Hx. exact (proj1 Hx).
Qed.

Lemma remove_file_only (rm_ok : string -> bool) (q : option string) (fs : list string)
    (p : string) :
  In p fs -> ~ In p (remove_file rm_ok q fs) -> truthy q = Some p.
Proof.
  unfold remove_file. intros Hin Hout. destruct (truthy q) as [r|]; [|contradiction].
  destruct (existsb _ fs), (rm_ok r); try contradiction.
  destruct (String.eqb p r) eqn:E.
  - apply String.eqb_eq in E. subst. reflexivity.
  - exfalso. apply Hout. apply filter_In. rewrite E. auto.
Qed.

Lemma split_T_head_no_T (d : string) : no_T d = false -> split_T_head d = d.
Proof.
  unfold no_T. induction d as [|c d IH]; cbn [split_T_head list_ascii_of_string existsb append];
    [reflexivity|].
  intros H. apply orb_false_iff in H as [Hc Hd].
  rewrite Ascii.eqb_sym, Hc, IH by exact Hd. reflexivity.
Qed.

Lemma split_T_head_app (d rest : string) :
  no_T d = false -> split_T_head (d ++ String (Ascii.ascii_of_nat 84) rest) = d.
Proof.
  unfold no_T. induction d as [|c d IH]; cbn [split_T_head list_ascii_of_string existsb append];
    [reflexivity|].
  intros H. apply orb_false_iff in H as [Hc Hd].
  rewrite Ascii.eqb_sym, Hc, IH by exact Hd. reflexivity.
Qed.

Lemma split_T_head_inv (ts d : string) :
  no_T d = false -> split_T_head ts = d ->
  ts = d \/ exists rest, ts = (d ++ String (Ascii.ascii_of_nat 84) rest)%string.
Proof.
  revert d. induction ts as [|c ts IH]; intros d Hd Hs; cbn [split_T_head] in Hs.
  - left. exact Hs.
  - destruct (Ascii.eqb c (Ascii.ascii_of_nat 84)) eqn:Ec.
    + apply Ascii.eqb_eq in Ec. subst. right. exists ts. reflexivity.
    + subst d. unfold no_T in Hd. cbn [list_ascii_of_string existsb] in Hd.
      apply orb_false_iff in Hd as [_ Hd].
      destruct (IH (split_T_head ts) Hd eq_refl) as [E|[rest E]].
      * left. rewrite <- E. reflexivity.
      * right. exists rest. simpl. rewrite <- E. reflexivity.
Qed.

End StoreExtraFacts.

Module StoreExtras.
Import AlertStore StoreLoad Admin StoreExtraFacts.

(** Every mutation done with a successful write ([add_alert],
    [mark_as_false_positive], [delete_alert]) leaves alerts.json such that
    a fresh [AlertManager] (as the admin dashboard creates per query) loads
    exactly the in-memory list, provided the file held that list before. *)
Theorem saved_store_reloads (s : Store) (Hs : db s = Dumped (alerts s))
    (a : Alert) (aid fb : string) (rm_ok : string -> bool) (io : io_outcome) :
  let s1 := snd (add_alert IO_ok (AlertObj a) s) in
  let s2 := snd (mark_as_false_positive IO_ok aid fb s) in
  let s3 := snd (delete_alert IO_ok rm_ok aid s) in
  reload s1 io = alerts s1 /\ reload s2 io = alerts s2 /\ reload s3 io = alerts s3.
Proof.
  unfold reload, add_alert, mark_as_false_positive, delete_alert, get_alert_by_id,
    bind, gets, modify, ret, save_alerts, set_alerts; simpl.
  destruct (find_alert aid (alerts s)); simpl; rewrite ?Hs; auto.
Qed.

Lemma saved_store_reloads_witness :
  let s := mkStore [demo_alert "a1b2c3d4"] (Dumped [demo_alert "a1b2c3d4"]) [] in
  db s = Dumped (alerts s) /\
  reload (snd (add_alert IO_ok (AlertObj (demo_alert "0f0f0f0f")) s)) IO_ok =
    [demo_alert "a1b2c3d4"; demo_alert "0f0f0f0f"].
Proof.
  intros s. split; [reflexivity|].
  destruct (saved_store_reloads s eq_refl (demo_alert "0f0f0f0f") "a1b2c3d4"%string
              ""%string (fun _ => true) IO_ok) as [H _].
  exact H.
Defined.

(** A write that fails after [open(..., 'w')] truncated alerts.json
    loses every stored alert for the next [AlertManager]: it loads an
    empty list, and its next successful save replaces the file with the
    new alert alone. *)
Theorem write_failure_loses_history (s : Store) (a b : Alert) (io : io_outcome) :
  let s1 := snd (add_alert IO_write_fail (AlertObj a) s) in
  let fresh := mkStore (reload s1 io) Damaged (files s1) in
  alerts s1 = alerts s ++ [a] /\ reload s1 io = [] /\
  db (snd (add_alert IO_ok (AlertObj b) fresh)) = Dumped [b].
Proof.
  unfold reload, add_alert, bind, modify, ret, save_alerts, set_alerts; simpl. auto.
Qed.

(** [delete_alert] removes no file but the deleted alert's own truthy
    video and audio paths, whatever [os.remove] and the save do. *)
Theorem delete_alert_removes_only_its_files (io : io_outcome)
    (rm_ok : string -> bool) (aid : string) (s : Store) :
  let s' := snd (delete_alert io rm_ok aid s) in
  incl (files s') (files s) /\
  forall p, In p (files s) -> ~ In p (files s') ->
    exists a, find_alert aid (alerts s) = Some a /\
              (truthy (video_path a) = Some p \/ truthy (audio_path a) = Some p).
Proof.
  unfold delete_alert, get_alert_by_id, bind, gets, modify, ret, save_alerts, set_alerts;
    simpl.
  destruct (find_alert aid (alerts s)) as [a|] eqn:Ef.
  - assert (Hf : forall s0 : Store, files s0 = remove_file rm_ok (audio_path a)
               (remove_file rm_ok (video_path a) (files s)) ->
             incl (files s0) (files s) /\
             (forall p, In p (files s) -> ~ In p (files s0) ->
              exists a0, Some a = Some a0 /\
                (truthy (video_path a0) = Some p \/ truthy (audio_path a0) = Some p))).
    { intros s0 E. rewrite E. split.
      - eapply incl_tran; apply remove_file_incl.
      - intros p Hin Hout. exists a. split; [reflexivity|].
        destruct (In_dec String.string_dec p (remove_file rm_ok (video_path a) (files s)))
          as [Hm|Hm].
        + right. exact (remove_file_only _ _ _ p Hm Hout).
        + left. exact (remove_file_only _ _ _ p Hin Hm). }
    destruct io; apply Hf; reflexivity.
  - split; [apply incl_refl|]. intros p Hin Hout. contradiction.
Qed.

(** [mark_as_false_positive] never changes an alert's id, timestamp,
    type, description or evidence paths, never adds or removes an alert,
    and touches no evidence file, whatever the save does. *)
Theorem mark_as_false_positive_keeps_content (io : io_outcome) (aid fb : string)
    (s : Store) :
  let s' := snd (mark_as_false_positive io aid fb s) in
  let content (a : Alert) :=
    (id a, timestamp a, alert_type a, description a, video_path a, audio_path a) in
  map content (alerts s') = map content (alerts s) /\ files s' = files s.
Proof.
  intros s' content. subst s'.
  unfold mark_as_false_positive, get_alert_by_id, bind, gets, modify, ret, save_alerts,
    set_alerts; simpl.
  destruct (find_alert aid (alerts s)); [|auto].
  assert (H : map content (update_first aid (set_false_positive fb) (alerts s)) =
              map content (alerts s)) by (apply update_first_map; reflexivity).
  destruct io; simpl; auto.
Qed.

(** [get_all_alerts] is stable: alerts sharing a timestamp are listed in
    the order they were added. *)
Theorem get_all_alerts_stable (s : Store) (t : string) :
  exists l, get_all_alerts s = (Ok l, s) /\
    filter (fun x => String.eqb (timestamp x) t) l =
    filter (fun x => String.eqb (timestamp x) t) (alerts s).
Proof.
  exists (sort_desc (alerts s)). split; [reflexivity|].
  exact (sort_desc_at_ts t (alerts s) [] (SSorted_nil _)).
Qed.

(** [AlertState.get_filtered_alerts] shows exactly the stored alerts that
    pass the three filters, newest first; with the filters at their
    defaults ([filter_type = "all"], no date, false positives shown) it
    shows [get_all_alerts] unchanged. *)
Theorem get_filtered_alerts_spec (f : Filters) (l : list Alert) :
  (forall x, In x (get_filtered_alerts f l) <-> In x l /\ keep f x = true) /\
  StronglySorted ts_desc (get_filtered_alerts f l) /\
  get_filtered_alerts (mkFilters "all" None true) l = sort_desc l.
Proof.
  unfold get_filtered_alerts. split; [|split].
  - intros x. rewrite filter_In. split; intros [H1 H2]; split; auto.
    + apply (Permutation_in _ (sort_desc_perm l)). exact H1.
    + apply (Permutation_in _ (Permutation_sym (sort_desc_perm l))). exact H1.
  - apply strongly_sorted_filter. apply sort_desc_strongly_sorted.
  - apply filter_all. intros x _. reflexivity.
Qed.

(** With a date [d] (non-empty, without a ["T"]) set as [filter_date],
    an alert passes the date test exactly when its ISO timestamp is [d]
    itself or [d] followed by ["T"] and a time. *)
Theorem date_filter_by_day (f : Filters) (d : string) (x : Alert)
    (Hf : filter_date f = Some d) (Hne : String.eqb d "" = false) (HT : no_T d = false) :
  keep f x = true <->
  keep (mkFilters (filter_type f) None (show_false_positives f)) x = true /\
  (timestamp x = d \/
   exists rest, timestamp x = (d ++ String (Ascii.ascii_of_nat 84) rest)%string).
Proof.
  unfold keep. simpl. rewrite Hf. unfold truthy. rewrite Hne.
  destruct (negb (show_false_positives f) && is_false_positive x); [split; intros [? _] || intros ?; discriminate|].
  destruct (negb (String.eqb (filter_type f) "all") &&
            negb (String.eqb (alert_type x) (filter_type f))).
  { split; [discriminate|]. intros [H _]; discriminate. }
  rewrite String.eqb_eq. split.
  - intros H. split; [reflexivity|]. exact (split_T_head_inv _ _ HT H).
  - intros [_ [E|[rest E]]]; rewrite E.
    + exact (split_T_head_no_T d HT).
    + exact (split_T_head_app d rest HT).
Qed.

Lemma date_filter_by_day_witness :
  let f := mkFilters "object_theft" (Some "2026-10-18"%string) false in
  keep f (demo_alert "a1b2c3d4") = true.
Proof.
  intros f.
  apply (proj2 (date_filter_by_day f "2026-10-18"%string (demo_alert "a1b2c3d4")
                  eq_refl eq_refl eq_refl)).
  split; [reflexivity|]. right. exists "10:00:00"%string. reflexivity.
Defined.

End StoreExtras.

Module EvidenceExtraFacts.
Import Evidence AudioStream EvidenceFacts.

Lemma firstn_app_short {A} (n : nat) (l m : list A) :
  n <= length l -> firstn n (l ++ m) = firstn n l.
Proof.
  intros H. rewrite firstn_app. replace (n - length l) with 0 by lia.
  rewrite app_nil_r. reflexivity.
Qed.

Lemma skipn_app_short {A} (n : nat) (l m : list A) :
  n <= length l -> skipn n (l ++ m) = skipn n l ++ m.
Proof.
  intros H. rewrite skipn_app. replace (n - length l) with 0 by lia. reflexivity.
Qed.

Lemma process_step_eq {Smp} (cs : nat) (d buf : list Smp) :
  process_step cs d buf =
  if Nat.leb cs (length (buf ++ d))
  then (Some (firstn cs (buf ++ d)), skipn (cs / 2) (buf ++ d))
  else (None, buf ++ d).
Proof. reflexivity. Qed.

Lemma process_all_gen {Smp} (cs : nat) (datas : list (list Smp)) (buf stream : list Smp)
    (k : nat) :
  buf = skipn (k * (cs / 2)) stream -> k * (cs / 2) <= length stream ->
  let P := process_all cs datas buf in
  fst P = map (fun i => firstn cs (skipn (i * (cs / 2)) (stream ++ concat datas)))
            (seq k (length (fst P))) /\
  Forall (fun c => length c = cs) (fst P) /\
  snd P = skipn ((k + length (fst P)) * (cs / 2)) (stream ++ concat datas) /\
  (k + length (fst P)) * (cs / 2) <= length (stream ++ concat datas) /\
  length (fst P) <= length datas.
Proof.
  assert (Hh : cs / 2 <= cs) by (apply Nat.Div0.div_le_upper_bound; lia).
  revert buf stream k. induction datas as [|d ds IH]; intros buf stream k Hb Hk.
  - cbn [process_all concat fst snd length seq map].
    rewrite app_nil_r, Nat.add_0_r. repeat split; auto.
  - cbn [process_all concat]. rewrite process_step_eq.
    assert (Hb1 : buf ++ d = skipn (k * (cs / 2)) (stream ++ d))
      by (rewrite Hb, skipn_app_short by exact Hk; reflexivity).
    assert (Hl1 : length (buf ++ d) = length (stream ++ d) - k * (cs / 2))
      by (rewrite Hb1, length_skipn; reflexivity).
    assert (Hk1 : k * (cs / 2) <= length (stream ++ d)) by (rewrite length_app; lia).
    replace (stream ++ d ++ concat ds) with ((stream ++ d) ++ concat ds)
      by (rewrite app_assoc; reflexivity).
    destruct (Nat.leb_spec cs (length (buf ++ d))) as [Hc|Hc].
    + assert (Hb2 : skipn (cs / 2) (buf ++ d) = skipn (S k * (cs / 2)) (stream ++ d)).
      { rewrite Hb1, skipn_skipn. reflexivity. }
      assert (Hk2 : S k * (cs / 2) <= length (stream ++ d)) by (cbn [Nat.mul]; lia).
      pose proof (IH _ _ (S k) Hb2 Hk2) as IH'.
      destruct (process_all cs ds (skipn (cs / 2) (buf ++ d))) as [outs buf2].
      cbn [fst snd] in IH'. destruct IH' as (Ho & Hf & Hr & Hle & Hn).
      cbn [fst snd length seq map].
      repeat split.
      * f_equal; [|exact Ho].
        rewrite skipn_app_short by exact Hk1.
        rewrite (firstn_app_short cs (skipn (k * (cs / 2)) (stream ++ d))).
        -- rewrite Hb1. reflexivity.
        -- rewrite length_skipn. lia.
      * constructor; [|exact Hf]. rewrite length_firstn. lia.
      * rewrite Hr. f_equal. cbn [Nat.mul]. lia.
      * cbn [Nat.mul] in Hle. lia.
      * lia.
    + pose proof (IH _ _ k Hb1 Hk1) as IH'.
      destruct (process_all cs ds (buf ++ d)) as [outs buf2].
      cbn [fst snd] in *. destruct IH' as (Ho & Hf & Hr & Hle & Hn).
      cbn [length]. repeat split; auto.
Qed.

Lemma prefix_iff (w t : string) :
  String.prefix w t = true <-> exists post, t = (w ++ post)%string.
Proof.
  revert t. induction w as [|c w IH]; intros [|c' t]; simpl.
  - split; [intros _; exists ""%string; reflexivity|reflexivity].
  - split; [intros _; exists (String c' t); reflexivity|reflexivity].
  - split; [discriminate|]. intros [post H]. discriminate.
  - destruct (Ascii.ascii_dec c c') as [<-|Hne].
    + rewrite IH. split; intros [post H]; exists post.
      * rewrite H. reflexivity.
      * injection H as H. exact H.
    + split; [discriminate|]. intros [post H]. injection H as H1 _. congruence.
Qed.

Lemma contains_iff (w t : string) :
  contains w t = true <-> exists pre post, t = (pre ++ w ++ post)%string.
Proof.
  induction t as [|c t IH]; cbn [contains]; rewrite orb_true_iff, prefix_iff.
  - split.
    + intros [[post H]|H]; [|discriminate]. exists ""%string, post. exact H.
    + intros [pre [post H]]. left. exists post. destruct pre; [exact H|discriminate].
  - rewrite IH. split.
    + intros [[post H]|[pre [post H]]].
      * exists ""%string, post. exact H.
      * exists (String c pre), post. rewrite H. reflexivity.
    + intros [[|c' pre] [post H]].
      * left. exists post. exact H.
      * right. injection H as _ H. exists pre, post. exact H.
Qed.

End EvidenceExtraFacts.

Module EvidenceExtras.
Import Evidence AudioStream EvidenceFacts EvidenceExtraFacts.

(** [_process_audio] hands the transcriber overlapping windows of the
    sample stream: the [i]-th chunk is the [chunk_size] samples starting
    at [i * (chunk_size // 2)]; the buffer left is the stream from the
    next window's start; at most one chunk is taken per queue item. *)
Theorem process_audio_windows {Smp : Type} (cs : nat) (datas : list (list Smp)) :
  let P := process_all cs datas [] in
  fst P = map (fun i => firstn cs (skipn (i * (cs / 2)) (concat datas)))
            (seq 0 (length (fst P))) /\
  Forall (fun c => length c = cs) (fst P) /\
  snd P = skipn (length (fst P) * (cs / 2)) (concat datas) /\
  length (fst P) <= length datas.
Proof.
  destruct (process_all_gen cs datas [] [] 0 eq_refl (le_n 0))
    as (Ho & Hf & Hr & _ & Hn).
  simpl in *. auto.
Qed.

(** [_check_for_curse_words] answers [True] exactly when some listed
    word occurs in the text as a substring (Python's [in]). *)
Theorem check_for_curse_words_iff (curse_words : list string) (text : string) :
  check_for_curse_words curse_words text = true <->
  exists w, In w curse_words /\ exists pre post, text = (pre ++ w ++ post)%string.
Proof.
  unfold check_for_curse_words. rewrite existsb_exists.
  split; intros [w [Hin H]]; exists w; split; auto; apply contains_iff; exact H.
Qed.

End EvidenceExtras.

Module TrackerExtraFacts.
Import Tracker TrackerFacts.
Local Open Scope Q_scope.

Lemma objid_eqb_eq (a b : ObjId) : objid_eqb a b = true <-> a = b.
Proof.
  destruct a as [[[c i] j] k], b as [[[c' i'] j'] k']. unfold objid_eqb.
  rewrite !andb_true_iff, String.eqb_eq, !Z.eqb_eq. split.
  - intros [[[-> ->] ->] ->]. reflexivity.
  - intros H. injection H as -> -> -> ->. auto.
Qed.

Lemma objid_eqb_refl (a : ObjId) : objid_eqb a a = true.
Proof. apply objid_eqb_eq. reflexivity. Qed.

Lemma dict_get_set (k k' : ObjId) (v : TrackedObj) (d : Dict) :
  dict_get k (dict_set k' v d) = if objid_eqb k k' then Some v else dict_get k d.
Proof.
  induction d as [|[k'' v''] d IH]; simpl; [reflexivity|].
  destruct (objid_eqb k' k'') eqn:E; simpl.
  - apply objid_eqb_eq in E. subst k''. destruct (objid_eqb k k'); reflexivity.
  - rewrite IH. destruct (objid_eqb k k'') eqn:E1, (objid_eqb k k') eqn:E2; try reflexivity.
    apply objid_eqb_eq in E1, E2. subst. rewrite objid_eqb_refl in E. discriminate.
Qed.

Lemma dict_set_keys (k : ObjId) (v : TrackedObj) (d : Dict) :
  map fst (dict_set k v d) =
  if existsb (objid_eqb k) (map fst d) then map fst d else map fst d ++ [k].
Proof.
  induction d as [|[k' v'] d IH]; simpl; [reflexivity|].
  destruct (objid_eqb k k'); simpl; [reflexivity|].
  rewrite IH. destruct (existsb _ _); reflexivity.
Qed.

Lemma dict_set_nodup (k : ObjId) (v : TrackedObj) (d : Dict) :
  NoDup (map fst d) -> NoDup (map fst (dict_set k v d)).
Proof.
  intros H. rewrite dict_set_keys. destruct (existsb (objid_eqb k) (map fst d)) eqn:E;
    [exact H|].
  apply (Permutation_NoDup (Permutation_cons_append _ _)). constructor; [|exact H].
  intros Hin. assert (Hx : existsb (objid_eqb k) (map fst d) = true).
  { apply existsb_exists. exists k. split; [exact Hin|apply objid_eqb_refl]. }
  congruence.
Qed.

Lemma current_objects_snoc (now : Q) (dets : list Detection) (d : Detection) :
  current_objects now (dets ++ [d]) =
  if is_watched (class_name d) then dict_set (obj_id_of d) (obj_of now d) (current_objects now dets)
  else current_objects now dets.
Proof. unfold current_objects. rewrite fold_left_app. reflexivity. Qed.

Lemma current_objects_nodup (now : Q) (dets : list Detection) :
  NoDup (map fst (current_objects now dets)).
Proof.
  induction dets as [|d dets IH] using rev_ind; [constructor|].
  rewrite current_objects_snoc.
  destruct (is_watched (class_name d)); [apply dict_set_nodup|]; exact IH.
Qed.

Lemma current_objects_get (now : Q) (dets : list Detection) (k : ObjId) (v : TrackedObj) :
  dict_get k (current_objects now dets) = Some v <->
  exists pre d post, dets = pre ++ d :: post /\
    is_watched (class_name d) = true /\ obj_id_of d = k /\ v = obj_of now d /\
    (forall d', In d' post -> is_watched (class_name d') = true -> obj_id_of d' <> k).
Proof.
  revert v. induction dets as [|x dets IH] using rev_ind; intros v.
  - simpl. split; [discriminate|]. intros [pre [d [post [H _]]]].
    destruct pre; discriminate.
  - rewrite current_objects_snoc. split.
    + intros H.
      destruct (is_watched (class_name x)) eqn:Wx;
        [rewrite dict_get_set in H; destruct (objid_eqb k (obj_id_of x)) eqn:Ek|].
      * apply objid_eqb_eq in Ek. injection H as <-.
        exists dets, x, []. repeat split; auto. all: try (intros d' []; fail).
      * apply IH in H as [pre [d [post (-> & Wd & Hk & Hv & Hpost)]]].
        exists pre, d, (post ++ [x]). repeat split; auto.
        -- rewrite <- app_assoc. reflexivity.
        -- intros d' Hd' Wd'. apply in_app_or in Hd' as [Hd'|[<-|[]]]; [auto|].
           intros E. rewrite E, objid_eqb_refl in Ek. discriminate.
      * apply IH in H as [pre [d [post (-> & Wd & Hk & Hv & Hpost)]]].
        exists pre, d, (post ++ [x]). repeat split; auto.
        -- rewrite <- app_assoc. reflexivity.
        -- intros d' Hd' Wd'. apply in_app_or in Hd' as [Hd'|[<-|[]]]; [auto|].
           congruence.
    + intros [pre [d [post (E & Wd & Hk & Hv & Hpost)]]].
      destruct post as [|y post'] eqn:Ep.
      * apply app_inj_tail in E as [-> ->]. rewrite Wd, dict_get_set.
        subst k. rewrite objid_eqb_refl. rewrite Hv. reflexivity.
      * destruct (exists_last (l := y :: post') ltac:(discriminate)) as [post'' [z Ez]].
        rewrite Ez in E. rewrite app_comm_cons, app_assoc in E.
        apply app_inj_tail in E as [El <-].
        assert (Hx : is_watched (class_name x) = true -> obj_id_of x <> k).
        { apply Hpost. rewrite Ez. apply in_or_app. right. left. reflexivity. }
        assert (Hg : dict_get k (current_objects now dets) = Some v).
        { apply IH. exists pre, d, post''. repeat split; auto.
          intros d' Hd'. apply Hpost. rewrite Ez. apply in_or_app. left. exact Hd'. }
        destruct (is_watched (class_name x)) eqn:Wx; [|exact Hg].
        rewrite dict_get_set. destruct (objid_eqb k (obj_id_of x)) eqn:Ek; [|exact Hg].
        apply objid_eqb_eq in Ek. exfalso. apply (Hx eq_refl). symmetry. exact Ek.
Qed.

Lemma find_missing_complete (now : Q) (tracked cur : Dict) (acc : list TrackedObj)
    (k : ObjId) (v : TrackedObj) :
  (In v acc \/ (In (k, v) tracked /\ dict_mem k cur = false /\
                Qle_bool (now - last_seen v) 3 = false)) ->
  In v (fold_left (fun miss kv =>
               let '(k, v) := kv in
               if dict_mem k cur then miss
               else if Qle_bool (now - last_seen v) 3 then miss
               else miss ++ [v]) tracked acc).
Proof.
  revert acc. induction tracked as [|[k' w] tracked IH]; intros acc H; simpl.
  - destruct H as [H|[[] _]]. exact H.
  - apply IH. destruct H as [H|[[E|Hin] Hr]].
    + left. destruct (dict_mem k' cur); [exact H|].
      destruct (Qle_bool (now - last_seen w) 3); [exact H|]. apply in_or_app. left. exact H.
    + injection E as -> ->. destruct Hr as [-> ->]. left.
      apply in_or_app. right. left. reflexivity.
    + right. auto.
Qed.

End TrackerExtraFacts.

Module TrackerExtras.
Import Tracker TrackerFacts TrackerExtraFacts.
Local Open Scope Q_scope.

(** The [current_objects] dict of a tick: its keys are distinct, and the
    object stored under an id is the one of the last watched-class
    detection with that id (a later detection with the same id
    overwrites an earlier one). *)
Theorem current_objects_keys (now : Q) (dets : list Detection) :
  NoDup (map fst (current_objects now dets)) /\
  forall k v,
    dict_get k (current_objects now dets) = Some v <->
    exists pre d post, dets = pre ++ d :: post /\
      is_watched (class_name d) = true /\ obj_id_of d = k /\ v = obj_of now d /\
      (forall d', In d' post -> is_watched (class_name d') = true -> obj_id_of d' <> k).
Proof.
  split; [apply current_objects_nodup|]. intros k v. apply current_objects_get.
Qed.

(** What one tick reports: an object is reported missing exactly when it
    was tracked at the previous tick, its id is absent now, and more than
    3 seconds passed since it was last seen; the tick raises the theft
    alarm exactly when that list is non-empty. *)
Theorem update_reports_exactly (now : Q) (dets : list Detection) (st : TrackerState) :
  let r := update_object_tracking now dets st in
  (forall v, In v (missing_objects (snd r)) <->
     exists k, In (k, v) (tracked_objects st) /\
               dict_mem k (current_objects now dets) = false /\
               Qle_bool (now - last_seen v) 3 = false) /\
  fst r = match missing_objects (snd r) with
          | [] => (false, ""%string)
          | _ :: _ => (true, theft_message (missing_objects (snd r)))
          end.
Proof.
  intros r. split.
  - intros v. split; [apply missing_from_previous_tick|].
    intros [k [Hin Hr]]. unfold r. rewrite update_missing.
    destruct (tracked_objects st) as [|kv tr] eqn:Ht; [destruct Hin|].
    rewrite <- Ht. unfold find_missing.
    apply (find_missing_complete now _ _ [] k v). right. rewrite Ht. auto.
  - unfold r, update_object_tracking. destruct (tracked_objects st); [reflexivity|].
    destruct (find_missing _ _ _); reflexivity.
Qed.

End TrackerExtras.

Module ContactExtraFacts.
Import Contact ContactFacts.
Local Open Scope Q_scope.

Lemma dist2_sym (a b : Keypoint) : dist2 b a == dist2 a b.
Proof. unfold dist2. ring. Qed.

Lemma close_bodies_sym (p1 p2 : Person) : close_bodies p1 p2 -> close_bodies p2 p1.
Proof.
  intros [i [j (Hi & Hj & Ci & Cj & D)]]. exists j, i.
  repeat split; auto. rewrite dist2_sym. exact D.
Qed.

Lemma facing_sym (p1 p2 : Person) : facing p1 p2 -> facing p2 p1.
Proof.
  intros (H1 & H2 & H3). repeat split; auto.
  assert (E : dot (trunk p2) (trunk p1) == dot (trunk p1) (trunk p2))
    by (unfold dot; ring).
  rewrite E. exact H3.
Qed.

Lemma contact_condition_sym (p1 p2 : Person) :
  contact_condition p1 p2 -> contact_condition p2 p1.
Proof.
  intros (C & F & W). split; [apply close_bodies_sym; exact C|].
  split; [apply facing_sym; exact F|]. tauto.
Qed.

Lemma pair_alarm_sym (p1 p2 : Person) : pair_alarm p1 p2 = pair_alarm p2 p1.
Proof.
  destruct (pair_alarm p1 p2) eqn:E1, (pair_alarm p2 p1) eqn:E2; try reflexivity.
  - apply pair_alarm_iff, contact_condition_sym, pair_alarm_iff in E1. congruence.
  - apply pair_alarm_iff, contact_condition_sym, pair_alarm_iff in E2. congruence.
Qed.

Lemma existsb_perm {A} (f : A -> bool) (l l' : list A) :
  Permutation l l' -> existsb f l = existsb f l'.
Proof.
  induction 1 as [|x l l' _ IH|x y l|l l' l'' _ IH1 _ IH2]; simpl.
  - reflexivity.
  - rewrite IH. reflexivity.
  - destruct (f x), (f y); reflexivity.
  - congruence.
Qed.

Lemma any_pair_perm (ps ps' : list Person) :
  Permutation ps ps' -> any_pair ps = any_pair ps'.
Proof.
  induction 1 as [|x l l' H IH|x y l|l l' l'' _ IH1 _ IH2]; cbn [any_pair existsb].
  - reflexivity.
  - rewrite (existsb_perm _ _ _ H), IH. reflexivity.
  - rewrite (pair_alarm_sym x y).
    destruct (pair_alarm y x), (existsb (pair_alarm x) l), (existsb (pair_alarm y) l);
      reflexivity.
  - congruence.
Qed.

End ContactExtraFacts.

Module ContactExtras.
Import Contact ContactExtraFacts.

(** [check_inappropriate_contact] does not depend on the order in which
    the pose model lists the people: the pair test is symmetric and every
    pair is tried. *)
Theorem check_inappropriate_contact_order_free (ps ps' : list Person)
    (Hp : Permutation ps ps') :
  check_inappropriate_contact ps = check_inappropriate_contact ps'.
Proof.
  unfold check_inappropriate_contact.
  rewrite (Permutation_length Hp), (any_pair_perm ps ps' Hp). reflexivity.
Qed.

Lemma check_inappropriate_contact_order_free_witness :
  Permutation [person_a_near; person_b; person_a_far] [person_b; person_a_far; person_a_near] /\
  check_inappropriate_contact [person_a_near; person_b; person_a_far] =
  check_inappropriate_contact [person_b; person_a_far; person_a_near].
Proof.
  assert (Hp : Permutation [person_a_near; person_b; person_a_far]
                           [person_b; person_a_far; person_a_near]).
  { apply (perm_trans (perm_swap person_b person_a_near [person_a_far])).
    apply perm_skip. apply perm_swap. }
  split; [exact Hp|].
  exact (check_inappropriate_contact_order_free _ _ Hp).
Defined.

End ContactExtras.

Module WorkerFacts.
Import AlertStore Evidence Worker StoreExtraFacts.

Lemma add_file_incl (p : option string) (s : Store) : incl (files s) (files (add_file p s)).
Proof.
  unfold add_file. destruct p as [q|]; [|apply incl_refl].
  destruct (existsb _ _); [apply incl_refl|]. intros x Hx. right. exact Hx.
Qed.

Lemma add_file_in (q : string) (s : Store) : In q (files (add_file (Some q) s)).
Proof.
  unfold add_file. destruct (existsb (String.eqb q) (files s)) eqn:E.
  - apply existsb_exists in E as [r [Hr Er]]. apply String.eqb_eq in Er. subst r. exact Hr.
  - left. reflexivity.
Qed.

Lemma add_file_alerts (p : option string) (s : Store) : alerts (add_file p s) = alerts s.
Proof. unfold add_file. destruct p; [destruct (existsb _ _)|]; reflexivity. Qed.

(** A detection reported with a working audio writer and store. *)
Lemma report_detection_ok {F S : Type} (prefix atype desc clock ts uid now : string)
    (video_dir audio_dir : string) (v : VideoState F) (a : AudioState S) (s : Store) :
  frame_buffer v <> [] ->
  exists ap s',
    report_detection prefix atype desc clock ts uid now video_dir audio_dir true IO_ok v a s
      = (Ok uid, s') /\
    alerts s' = alerts s ++
      [new_alert uid now atype desc (Some (clip_path video_dir prefix clock ts)) ap] /\
    In (clip_path video_dir prefix clock ts) (files s') /\
    incl (files s) (files s').
Proof.
  intros Hv. unfold report_detection, save_alert_video.
  destruct (frame_buffer v) as [|f fs]; [contradiction|]. cbn [fst].
  set (pv := clip_path video_dir prefix clock ts).
  change (video_dir ++ "/alert_" ++ (prefix ++ "_" ++ clock) ++ "_" ++ ts ++ ".mp4")%string
    with pv.
  assert (Ha : exists ap, fst (save_alert_audio true audio_dir (prefix ++ "_" ++ clock)%string ts a)
                          = Ok ap).
  { unfold save_alert_audio. destruct (audio_buffer a); [eexists; reflexivity|].
    destruct (Nat.ltb _ _); eexists; reflexivity. }
  destruct Ha as [ap Ha]. rewrite Ha.
  exists ap. eexists. split; [reflexivity|].
  cbn [add_alert bind modify save_alerts ret set_alerts alerts files].
  rewrite !add_file_alerts. split; [reflexivity|]. split.
  - apply (add_file_incl ap). apply add_file_in.
  - intros x Hx. apply (add_file_incl ap). apply (add_file_incl (Some pv)). exact Hx.
Qed.

Lemma find_alert_snoc_new (aid : string) (l : list Alert) (b : Alert) :
  find_alert aid l = None -> id b = aid -> find_alert aid (l ++ [b]) = Some b.
Proof.
  intros H Hb. rewrite AlertStoreFacts.find_alert_app, H. simpl.
  rewrite Hb, String.eqb_refl. reflexivity.
Qed.

Lemma remove_first_absent (aid : string) (l m : list Alert) :
  find_alert aid l = None -> remove_first aid (l ++ m) = l ++ remove_first aid m.
Proof.
  induction l as [|x l IH]; simpl; [reflexivity|].
  destruct (String.eqb (id x) aid); [discriminate|]. intros H. rewrite IH by exact H.
  reflexivity.
Qed.

Lemma remove_file_gone (q : string) (fs : list string) (p : option string) :
  ~ In q fs -> ~ In q (remove_file (fun _ => true) p fs).
Proof.
  intros H Hin. apply (remove_file_incl (fun _ => true) p fs) in Hin. contradiction.
Qed.

Lemma remove_file_removes (q : string) (fs : list string) :
  q <> ""%string -> ~ In q (remove_file (fun _ => true) (Some q) fs).
Proof.
  intros Hq Hin. unfold remove_file, truthy in Hin.
  destruct (String.eqb q "") eqn:E; [apply String.eqb_eq in E; contradiction|].
  destruct (existsb (String.eqb q) fs) eqn:Ex.
  - apply filter_In in Hin as [_ Hin]. rewrite String.eqb_refl in Hin. discriminate.
  - assert (Hx : existsb (String.eqb q) fs = true).
    { apply existsb_exists. exists q. split; [exact Hin|apply String.eqb_refl]. }
    congruence.
Qed.

End WorkerFacts.

Module WorkerExtras.
Import AlertStore Evidence Worker StoreExtraFacts WorkerFacts.

(** Two detections reported within one clock second get the same alert
    id [f"{prefix}_{int(time.time())}"] and the same [time.strftime]
    stamp, so both alerts reference the same clip file; deleting the
    first alert from the store then removes the clip the second one
    still references.  The buffers at the two detections are arbitrary
    (the second detection follows further reads), provided the clip
    buffer is non-empty at both. *)
Theorem same_second_alerts_share_clip {F S : Type}
    (prefix atype desc1 desc2 clock ts uid1 uid2 now1 now2 video_dir audio_dir : string)
    (v1 v2 : VideoState F) (a1 a2 : AudioState S) (s : Store)
    (Hv1 : frame_buffer v1 <> []) (Hv2 : frame_buffer v2 <> [])
    (Hu : String.eqb uid1 uid2 = false)
    (H1 : find_alert uid1 (alerts s) = None) (H2 : find_alert uid2 (alerts s) = None) :
  let s1 := snd (report_detection prefix atype desc1 clock ts uid1 now1 video_dir audio_dir
                   true IO_ok v1 a1 s) in
  let s2 := snd (report_detection prefix atype desc2 clock ts uid2 now2 video_dir audio_dir
                   true IO_ok v2 a2 s1) in
  let s3 := snd (delete_alert IO_ok (fun _ => true) uid1 s2) in
  let p := clip_path video_dir prefix clock ts in
  (exists r1 r2, alerts s2 = alerts s ++ [r1; r2] /\ id r1 = uid1 /\ id r2 = uid2 /\
                 video_path r1 = Some p /\ video_path r2 = Some p) /\
  In p (files s2) /\ ~ In p (files s3) /\
  exists b, find_alert uid2 (alerts s3) = Some b /\ video_path b = Some p.
Proof.
  destruct (report_detection_ok prefix atype desc1 clock ts uid1 now1 video_dir audio_dir
              v1 a1 s Hv1) as [ap1 [s1 (E1 & A1 & In1 & Inc1)]].
  destruct (report_detection_ok prefix atype desc2 clock ts uid2 now2 video_dir audio_dir
              v2 a2 s1 Hv2) as [ap2 [s2 (E2 & A2 & In2 & Inc2)]].
  cbv zeta. rewrite E1. cbn [snd]. rewrite E2. cbn [snd].
  set (p := clip_path video_dir prefix clock ts).
  set (n1 := new_alert uid1 now1 atype desc1 (Some p) ap1).
  set (n2 := new_alert uid2 now2 atype desc2 (Some p) ap2).
  assert (A : alerts s2 = alerts s ++ [n1; n2]) by (rewrite A2, A1, <- app_assoc; reflexivity).
  assert (Hp : p <> ""%string) by (unfold p, clip_path; destruct video_dir; discriminate).
  split; [exists n1, n2; repeat split; exact A|].
  split; [exact In2|].
  unfold delete_alert, get_alert_by_id, bind, gets, modify, ret, save_alerts, set_alerts.
  cbn [alerts files].
  assert (F1 : find_alert uid1 (alerts s2) = Some n1).
  { rewrite A, AlertStoreFacts.find_alert_app, H1. simpl. rewrite String.eqb_refl.
    reflexivity. }
  rewrite F1. cbn [alerts files video_path audio_path n1 new_alert].
  split.
  - apply remove_file_gone. apply remove_file_removes. exact Hp.
  - exists n2. split; [|reflexivity].
    rewrite A, remove_first_absent by exact H1. simpl. rewrite String.eqb_refl.
    rewrite <- (app_nil_r (alerts s)) at 1.
    change [n2] with ([] ++ [n2]). rewrite app_nil_r.
    apply find_alert_snoc_new; [exact H2|reflexivity].
Qed.

Lemma same_second_alerts_share_clip_witness :
  let v1 := @mkVideo nat [1; 2; 3] [] in
  let a1 := @mkAudio nat [4; 5] [] in
  let v2 := snd (read_frame 3 (fun x => x) (Some 6) v1) in
  let a2 := audio_callback 4 [7; 8] a1 in
  (exists b, find_alert "0f0f0f0f" (alerts (snd (delete_alert IO_ok (fun _ => true) "a1b2c3d4"
      (snd (report_detection "pose" "inappropriate_contact" "contact" "1760781600"
              "20261018_100000" "0f0f0f0f" "2026-10-18T10:00:00.5" "videos" "audio" true IO_ok
              v2 a2
         (snd (report_detection "pose" "inappropriate_contact" "contact" "1760781600"
                 "20261018_100000" "a1b2c3d4" "2026-10-18T10:00:00.1" "videos" "audio" true
                 IO_ok v1 a1 empty_store))))))) = Some b /\
     video_path b = Some (clip_path "videos" "pose" "1760781600" "20261018_100000")).
Proof.
  intros v1 a1 v2 a2.
  destruct (same_second_alerts_share_clip "pose" "inappropriate_contact" "contact" "contact"
              "1760781600" "20261018_100000" "a1b2c3d4" "0f0f0f0f"
              "2026-10-18T10:00:00.1" "2026-10-18T10:00:00.5" "videos" "audio" v1 v2 a1 a2
              empty_store ltac:(discriminate) ltac:(vm_compute; discriminate)
              eq_refl eq_refl eq_refl) as (_ & _ & _ & H).
  exact H.
Defined.

(** When writing the audio clip raises, the iteration's [except] branch
    runs: no alert is added and the store file is untouched, but the
    video clip written just before stays on disk, referenced by no new
    alert. *)
Theorem audio_failure_leaves_orphan_clip {F S : Type}
    (prefix atype desc clock ts uid now video_dir audio_dir : string) (io : io_outcome)
    (v : VideoState F) (a : AudioState S) (s : Store)
    (Hv : frame_buffer v <> []) (Ha : audio_buffer a <> []) :
  let r := report_detection prefix atype desc clock ts uid now video_dir audio_dir
             false io v a s in
  fst r = Raise OSError /\ alerts (snd r) = alerts s /\ db (snd r) = db s /\
  In (clip_path video_dir prefix clock ts) (files (snd r)).
Proof.
  unfold report_detection, save_alert_video, save_alert_audio.
  destruct (frame_buffer v) as [|f fs]; [contradiction|].
  destruct (audio_buffer a) as [|x xs]; [contradiction|].
  cbn [fst snd length Nat.ltb Nat.leb].
  rewrite add_file_alerts. split; [reflexivity|]. split; [reflexivity|].
  split; [unfold add_file; destruct (existsb _ _); reflexivity|].
  apply add_file_in.
Qed.

Lemma audio_failure_leaves_orphan_clip_witness :
  let v := @mkVideo nat [1; 2; 3] [] in
  let a := @mkAudio nat [4; 5] [] in
  fst (report_detection "object" "object_theft" "laptop missing" "1760781600"
         "20261018_100000" "a1b2c3d4" "2026-10-18T10:00:00" "videos" "audio" false IO_ok v a
         empty_store) = Raise OSError.
Proof.
  intros v a.
  exact (proj1 (audio_failure_leaves_orphan_clip "object" "object_theft" "laptop missing"
                  "1760781600" "20261018_100000" "a1b2c3d4" "2026-10-18T10:00:00" "videos"
                  "audio" IO_ok v a empty_store ltac:(discriminate) ltac:(discriminate))).
Defined.

End WorkerExtras.
